(** * Optimus: distributed VAE pre-training driver

    A shallow embedding of the control skeleton of
    [examples/big_ae/run_lm_vae_pretraining_phdist_beta.py]:
    the topology resolver [gpu_indices], the checkpoint writer
    [save_checkpoint] and the training loop [train].

    Python integers are [Z] (with [Z.div] and [Z.modulo], which round
    like Python's [//] and [%]); Python floats are binary64 values of
    the library's [spec_float]; exceptions are an explicit error type.

    The tensors, the tokenizers, the optimizer's arithmetic, mixed
    precision and the arguments that do not steer the control flow
    are left out; what the model, the data loader, the schedule
    generator and the storage answer is a parameter ([externals]).
    Integers that become floats are counts far below [2^53], where
    the conversion is exact. *)

From Stdlib Require Import ZArith List Bool Lia Ascii String.
From Stdlib Require DecimalString DecimalNat DecimalFacts.
From Stdlib Require Import Floats.SpecFloat.
Import ListNotations.
Open Scope Z_scope.

(** ** Python exceptions and results *)

Inductive exn : Type :=
| AssertionError
| ZeroDivisionError
| IndexError
| AttributeError
| ValueError
| OverflowError
| StorageError.

Inductive result (A : Type) : Type :=
| Ok (a : A)
| Raise (e : exn).
Arguments Ok {A} a.
Arguments Raise {A} e.

(** ** Binary64 floats *)

Module F64.

Definition prec : Z := 53.
Definition emax : Z := 1024.

Definition t : Type := spec_float.

Definition of_Z (z : Z) : t := binary_normalize prec emax z 0 false.
Definition zero : t := S754_zero false.
Definition one : t := of_Z 1.

Definition add : t -> t -> t := SFadd prec emax.
Definition sub : t -> t -> t := SFsub prec emax.
Definition mul : t -> t -> t := SFmul prec emax.
Definition div : t -> t -> t := SFdiv prec emax.
Definition eqb : t -> t -> bool := SFeqb.
Definition ltb : t -> t -> bool := SFltb.

(** [int(x)]: truncation toward zero; Python raises on NaN and on
    infinities. *)
Definition to_int (x : t) : result Z :=
  match x with
  | S754_zero _ => Ok 0
  | S754_nan => Raise ValueError
  | S754_infinity _ => Raise OverflowError
  | S754_finite s m e =>
      let a := match e with
               | Z0 => Zpos m
               | Zpos p => Z.shiftl (Zpos m) (Zpos p)
               | Zneg p => Z.shiftr (Zpos m) (Zpos p)
               end in
      Ok (if s then - a else a)
  end.

(** The least integer not below [x], as numpy computes the length of
    an [arange]; [None] where numpy reports that it cannot compute
    the length. *)
Definition ceil (x : t) : option Z :=
  match x with
  | S754_zero _ => Some 0
  | S754_nan | S754_infinity _ => None
  | S754_finite s m e =>
      match e with
      | Z0 => Some (if s then Zneg m else Zpos m)
      | Zpos p => Some (let a := Z.shiftl (Zpos m) (Zpos p) in if s then - a else a)
      | Zneg p =>
          let q := Z.shiftr (Zpos m) (Zpos p) in
          let exact := Z.eqb (Z.shiftl q (Zpos p)) (Zpos m) in
          Some (if s then - q else if exact then q else q + 1)
      end
  end.

End F64.

(** ** Topology resolver *)

(** The process environment: the four OMPI variables and the number of
    GPUs that [nvidia-smi] listed ([len(get_gpus())]). *)
Record environ : Type := {
  ompi_rank : Z;
  ompi_size : Z;
  ompi_local_rank : Z;
  ompi_local_size : Z;
  gpu_count : Z
}.

(** [np.arange(start, stop)] on two floats: the length is
    [ceil((stop - start) / 1)], the first two entries are [start] and
    [start + 1], and entry [i >= 2] is [start + i * delta] with
    [delta] the difference of the first two. *)
Definition np_arange (start stop : F64.t) : result (list F64.t) :=
  match F64.ceil (F64.div (F64.sub stop start) F64.one) with
  | None => Raise ValueError
  | Some len =>
      if len <=? 0 then Ok []
      else
        let next := F64.add start F64.one in
        let delta := F64.sub next start in
        Ok (map (fun i : nat =>
                   match i with
                   | O => start
                   | S O => next
                   | _ => F64.add start (F64.mul (F64.of_Z (Z.of_nat i)) delta)
                   end)
                (seq 0 (Z.to_nat len)))
  end.

(** [np.array_split(range(n), k)[r]]: the first [n mod k] sections
    have [n / k + 1] entries, the others [n / k]. *)
Definition np_array_split_range (n k r : Z) : list Z :=
  let each := n / k in
  let extras := n mod k in
  let lo := r * each + Z.min r extras in
  let size := if r <? extras then each + 1 else each in
  map (fun i : nat => lo + Z.of_nat i) (seq 0 (Z.to_nat size)).

Fixpoint ints_of (gs : list F64.t) : result (list Z) :=
  match gs with
  | [] => Ok []
  | g :: tl =>
      match F64.to_int g with
      | Raise e => Raise e
      | Ok z =>
          match ints_of tl with
          | Raise e => Raise e
          | Ok zs => Ok (z :: zs)
          end
      end
  end.

(** [ngpu = gpu_count / local_size] is Python 3's true division: a
    float, exact only when [local_size] divides [gpu_count]. *)
Definition gpu_indices (env : environ) (divisible : bool) : result (list Z) :=
  let local_size := ompi_local_size env in
  let local_rank := ompi_local_rank env in
  if negb ((0 <=? local_rank) && (local_rank <? local_size))
  then Raise AssertionError
  else if negb ((local_size <=? gpu_count env) && (0 <? local_size))
  then Raise AssertionError
  else if divisible then
    let ngpu := F64.div (F64.of_Z (gpu_count env)) (F64.of_Z local_size) in
    match np_arange (F64.mul (F64.of_Z local_rank) ngpu)
                    (F64.mul (F64.of_Z (local_rank + 1)) ngpu) with
    | Raise e => Raise e
    | Ok gpus => ints_of gpus
    end
  else Ok (np_array_split_range (gpu_count env) local_size local_rank).

(** A host with [gc] GPUs and [ls] co-located processes, seen from
    local rank [lr] (one host: the world rank is the local rank). *)
Definition host (ls lr gc : Z) : environ :=
  {| ompi_rank := lr; ompi_size := ls; ompi_local_rank := lr;
     ompi_local_size := ls; gpu_count := gc |}.

(** ** The machine the driver runs on *)

Inductive ckpt_kind : Type := Encoder | Decoder | Full.

(** [os.path.join(args.output_dir, "checkpoint-<kind>-<global_step>")] *)
Definition dir : Type := (ckpt_kind * Z)%type.
Definition file : Type := (dir * string)%type.

(** Position of a batch in the three nested loops of [train]. *)
Record pos : Type := {
  p_epoch : nat;
  p_file : nat;
  p_step : Z
}.

Inductive event : Type :=
| TbWriterOpen
| LoaderReset (epoch : nat)
| FileBegin (epoch idx_file : nat)
| Forward (p : pos) (global_step : Z) (beta : F64.t) (fb_mode : Z)
| LogProgress (p : pos) (global_step : Z)
| Backward (p : pos)
| ClipGradNorm (p : pos)
| OptimizerStep (p : pos)
| SchedulerStep (p : pos)
| ZeroGrad (at_pos : option pos)
| Evaluate (global_step : Z)
| TbScalars (global_step : Z)
| SaveAttemptLogged (n_save_attempts : Z).

Record world : Type := {
  fs_dirs : list dir;
  fs_files : list file;
  fs_writes : nat;
  forwards : nat;
  trace : list event
}.

Definition world0 : world :=
  {| fs_dirs := []; fs_files := []; fs_writes := 0%nat; forwards := 0%nat;
     trace := [] |}.

Inductive outcome (A : Type) : Type :=
| Done (a : A) (w : world)
| Fail (e : exn) (w : world)
| Hang.
Arguments Done {A} a w.
Arguments Fail {A} e w.
Arguments Hang {A}.

Definition M (A : Type) : Type := world -> outcome A.

Definition ret {A} (a : A) : M A := fun w => Done a w.
Definition raise {A} (e : exn) : M A := fun w => Fail e w.
Definition bind {A B} (c : M A) (k : A -> M B) : M B :=
  fun w => match c w with
           | Done a w' => k a w'
           | Fail e w' => Fail e w'
           | Hang => Hang
           end.
Definition lift {A} (r : result A) : M A :=
  match r with Ok a => ret a | Raise e => raise e end.

Declare Scope py_scope.
Delimit Scope py_scope with py.
Notation "x <- c ;; k" := (bind c (fun x => k))
  (at level 61, c at next level, right associativity) : py_scope.
Notation "c ;;; k" := (bind c (fun _ => k))
  (at level 61, right associativity) : py_scope.
Open Scope py_scope.

(** Appending to the log of what the process did. *)
Definition log_event (w : world) (e : event) : world :=
  {| fs_dirs := fs_dirs w; fs_files := fs_files w; fs_writes := fs_writes w;
     forwards := forwards w; trace := trace w ++ [e] |}.

Definition emit (e : event) : M unit := fun w => Done tt (log_event w e).

Definition when (b : bool) (c : M unit) : M unit := if b then c else ret tt.

(** [try: body / except: pass], reporting whether [body] completed. *)
Definition try_pass (body : M unit) : M bool :=
  fun w => match body w with
           | Done _ w' => Done true w'
           | Fail _ w' => Done false w'
           | Hang => Hang
           end.

Definition dir_eqb (a b : dir) : bool :=
  match fst a, fst b with
  | Encoder, Encoder | Decoder, Decoder | Full, Full => snd a =? snd b
  | _, _ => false
  end.

Definition path_exists (d : dir) : M bool :=
  fun w => Done (existsb (dir_eqb d) (fs_dirs w)) w.

Definition makedirs (d : dir) : M unit :=
  fun w => Done tt {| fs_dirs := d :: fs_dirs w; fs_files := fs_files w;
                      fs_writes := fs_writes w; forwards := forwards w;
                      trace := trace w |}.

(** ** External collaborators

    What the driver calls but does not define: the storage behind
    [save_pretrained] and [torch.save], the model's loss, the schedule
    generator of [utils], the bucketing data loader and the corpus
    directory. *)
Record externals : Type := {
  (** whether the [n]-th storage write (counted from 0) raises *)
  faulty : nat -> bool;
  (** [loss.item()] after the [n]-th forward call *)
  loss_item : nat -> F64.t;
  (** [frange_cycle_zero_linear(n_iter, start, stop, n_cycle,
      ratio_increase, ratio_zero)] *)
  frange_cycle_zero_linear :
    Z -> F64.t -> F64.t -> Z -> F64.t -> F64.t -> list F64.t;
  (** [len(train_dataloader)] and [train_dataloader.num_examples] *)
  len_train_dataloader : Z;
  num_examples : Z;
  (** batches the loader yields when iterated in the given epoch at
      the given turn of the file loop *)
  batches : nat -> nat -> nat;
  (** [len(list(files.glob("*seq64*.json")))] *)
  num_files : nat;
  (** whether [model_vae] is wrapped, so that [model_vae.module] exists *)
  has_module : bool;
  (** [torch.distributed.get_world_size()] and [get_rank()] *)
  world_size : Z;
  dist_rank : Z
}.

Record Args : Type := {
  local_rank : Z;
  max_steps : Z;
  num_train_epochs : F64.t;
  gradient_accumulation_steps : Z;
  per_gpu_train_batch_size : Z;
  logging_steps : Z;
  save_steps : Z;
  beta : F64.t;
  ratio_increase : F64.t;
  ratio_zero : F64.t;
  use_beta_schedule : bool;
  use_deterministic_connect : bool;
  use_philly : bool;
  distributed : bool;
  evaluate_during_training : bool
}.

(** [args.local_rank in [-1, 0]] *)
Definition in_minus1_0 (r : Z) : bool := (r =? -1) || (r =? 0).

(** One storage write: [save_pretrained] or [torch.save]. *)
Definition storage_write (x : externals) (f : file) : M unit :=
  fun w =>
    if faulty x (fs_writes w)
    then Fail StorageError
           {| fs_dirs := fs_dirs w; fs_files := fs_files w;
              fs_writes := S (fs_writes w); forwards := forwards w;
              trace := trace w |}
    else Done tt
           {| fs_dirs := fs_dirs w; fs_files := f :: fs_files w;
              fs_writes := S (fs_writes w); forwards := forwards w;
              trace := trace w |}.

Definition save_pretrained (x : externals) (d : dir) : M unit :=
  storage_write x (d, "pytorch_model.bin"%string).

Definition torch_save (x : externals) (d : dir) (name : string) : M unit :=
  storage_write x (d, name).

(** [save_solid = False; while not save_solid: try: body; save_solid =
    True; except: pass].  [n_save_attempts] counts the turns (the
    source keeps and logs the counter in the loop of the full
    checkpoint only); a loop that is out of [fuel] hangs. *)
Fixpoint while_not_solid (fuel : nat) (n_save_attempts : Z)
    (body : Z -> M unit) : M Z :=
  match fuel with
  | O => fun _ => Hang
  | S fuel' =>
      let n := n_save_attempts + 1 in
      ok <- try_pass (body n);;
      if ok : bool then ret n else while_not_solid fuel' n body
  end.

(** The three artifacts of a checkpoint and one attempt at each. *)
Definition artifact_dir (k : ckpt_kind) (global_step : Z) : dir := (k, global_step).

Definition attempt (x : externals) (philly : bool) (k : ckpt_kind)
    (global_step : Z) (n : Z) : M unit :=
  let d := artifact_dir k global_step in
  match k with
  | Encoder =>
      save_pretrained x d;;; torch_save x d "training_encoder_args.bin"
  | Decoder =>
      save_pretrained x d;;;
      torch_save x d (if philly then "training_decoder_args.bin"
                      else "training_encoder_args.bin")
  | Full =>
      when philly (emit (SaveAttemptLogged n));;;
      torch_save x d "training.bin"
  end.

(** [if args.use_philly: <retry loop> else: <one attempt>] *)
Definition save_artifact (x : externals) (fuel : nat) (philly : bool)
    (k : ckpt_kind) (global_step : Z) : M Z :=
  if philly
  then while_not_solid fuel 0 (attempt x philly k global_step)
  else attempt x philly k global_step 1;;; ret 1.

Definition ensure_dir (args : Args) (d : dir) : M unit :=
  ex <- path_exists d;;
  when (negb ex && in_minus1_0 (local_rank args)) (makedirs d).

Definition save_checkpoint (x : externals) (fuel : nat) (args : Args)
    (global_step : Z) : M unit :=
  let output_encoder_dir := artifact_dir Encoder global_step in
  let output_decoder_dir := artifact_dir Decoder global_step in
  ensure_dir args output_encoder_dir;;;
  ensure_dir args output_decoder_dir;;;
  save_artifact x fuel (use_philly args) Encoder global_step;;;
  save_artifact x fuel (use_philly args) Decoder global_step;;;
  let output_full_dir := artifact_dir Full global_step in
  ensure_dir args output_full_dir;;;
  save_artifact x fuel (use_philly args) Full global_step;;;
  ret tt.

(** ** The training loop *)

(** A Python number that is an [int] or a [float]:
    [args.num_train_epochs] is a float option that [train] overwrites
    with an int when [max_steps > 0]. *)
Inductive pynum : Type :=
| PyInt (z : Z)
| PyFloat (f : F64.t).

Definition py_int (n : pynum) : result Z :=
  match n with PyInt z => Ok z | PyFloat f => F64.to_int f end.

Definition py_float (n : pynum) : F64.t :=
  match n with PyInt z => F64.of_Z z | PyFloat f => f end.

(** [l[i]] with Python's negative indices. *)
Definition py_getitem {A} (l : list A) (i : Z) : result A :=
  let len := Z.of_nat (List.length l) in
  let j := if i <? 0 then i + len else i in
  if (0 <=? j) && (j <? len)
  then match nth_error l (Z.to_nat j) with
       | Some a => Ok a
       | None => Raise IndexError
       end
  else Raise IndexError.

(** The variables of [train] that change inside the loops. *)
Record locals : Type := {
  global_step : Z;
  tr_loss : F64.t;
  logging_loss : F64.t;
  beta_t : F64.t
}.

(** Lines 534-538: the weight for the coming forward call. *)
Definition schedule_gate (args : Args) (beta_t_list : list F64.t)
    (global_step : Z) (beta_t : F64.t) : result F64.t :=
  if use_beta_schedule args then
    if Z.of_nat (List.length beta_t_list) <=? global_step
    then Ok F64.one
    else py_getitem beta_t_list global_step
  else Ok beta_t.

(** Lines 548-554: the mode pushed into the model. *)
Definition fb_mode_of (args : Args) (beta_t : F64.t) : Z :=
  let fb_mode := if F64.eqb beta_t F64.zero then 0 else 1 in
  if use_deterministic_connect args then 2 else fb_mode.

Definition count_forward (w : world) : world :=
  {| fs_dirs := fs_dirs w; fs_files := fs_files w; fs_writes := fs_writes w;
     forwards := S (forwards w); trace := trace w |}.

(** [loss_rec, loss_kl, loss = model_vae(inputs, labels)], up to the
    value that [loss.item()] will return. *)
Definition forward_call (x : externals) (p : pos) (global_step : Z)
    (beta_t : F64.t) (fb_mode : Z) : M F64.t :=
  fun w =>
    Done (loss_item x (forwards w))
         (count_forward (log_event w (Forward p global_step beta_t fb_mode))).

(** Lines 595-640: the work done on an accumulation boundary. *)
Definition optimizer_boundary (x : externals) (fuel : nat) (args : Args)
    (p : pos) (l : locals) : M locals :=
  emit (ClipGradNorm p);;;
  emit (OptimizerStep p);;;
  emit (SchedulerStep p);;;
  emit (ZeroGrad (Some p));;;
  let global_step' := global_step l + 1 in
  logging_loss' <-
    (if in_minus1_0 (local_rank args) && (0 <? logging_steps args)
        && (global_step' mod logging_steps args =? 0)
     then
       when ((local_rank args =? -1) && evaluate_during_training args)
            (emit (Evaluate global_step'));;;
       emit (TbScalars global_step');;;
       ret (tr_loss l)
     else ret (logging_loss l));;
  when (in_minus1_0 (local_rank args) && (0 <? save_steps args)
        && (global_step' mod save_steps args =? 0))
       (save_checkpoint x fuel args global_step');;;
  ret {| global_step := global_step'; tr_loss := tr_loss l;
         logging_loss := logging_loss'; beta_t := beta_t l |}.

(** Lines 513-644: one batch; the boolean tells whether the [break]
    of line 644 was taken. *)
Definition train_batch (x : externals) (fuel : nat) (args : Args)
    (beta_t_list : list F64.t) (n_iter : Z) (p : pos) (l : locals)
    : M (locals * bool) :=
  beta_t' <- lift (schedule_gate args beta_t_list (global_step l) (beta_t l));;
  when (negb (has_module x)) (raise AttributeError);;;
  loss <- forward_call x p (global_step l) beta_t' (fb_mode_of args beta_t');;
  when (use_philly args && (0 <? logging_steps args)
        && (global_step l mod logging_steps args =? 0))
       (emit (LogProgress p (global_step l));;;
        when (n_iter =? 0) (raise ZeroDivisionError));;;
  emit (Backward p);;;
  let l1 := {| global_step := global_step l;
               tr_loss := F64.add (tr_loss l) loss;
               logging_loss := logging_loss l; beta_t := beta_t' |} in
  when (gradient_accumulation_steps args =? 0) (raise ZeroDivisionError);;;
  l2 <- (if (p_step p + 1) mod gradient_accumulation_steps args =? 0
         then optimizer_boundary x fuel args p l1
         else ret l1);;
  ret (l2, (0 <? max_steps args) && (max_steps args <? global_step l2)).

(** [for step, batch in enumerate(train_dataloader)] over [n] batches,
    left early by [break]. *)
Fixpoint batch_loop (n : nat) (step : Z)
    (body : Z -> locals -> M (locals * bool)) (l : locals) : M locals :=
  match n with
  | O => ret l
  | S n' =>
      r <- body step l;;
      if snd r then ret (fst r) else batch_loop n' (step + 1) body (fst r)
  end.

Fixpoint for_each {X} (xs : list X) (body : X -> locals -> M locals)
    (l : locals) : M locals :=
  match xs with
  | [] => ret l
  | v :: tl => l' <- body v l;; for_each tl body l'
  end.

(** Lines 506-644: one turn of the file loop. *)
Definition train_file (x : externals) (fuel : nat) (args : Args)
    (beta_t_list : list F64.t) (n_iter : Z) (epoch idx_file : nat)
    (l : locals) : M locals :=
  emit (FileBegin epoch idx_file);;;
  batch_loop (batches x epoch idx_file) 0
    (fun step =>
       train_batch x fuel args beta_t_list n_iter
         {| p_epoch := epoch; p_file := idx_file; p_step := step |})
    l.

(** Lines 504-644: one epoch. *)
Definition train_epoch (x : externals) (fuel : nat) (args : Args)
    (beta_t_list : list F64.t) (n_iter : Z) (epoch : nat) (l : locals)
    : M locals :=
  emit (LoaderReset epoch);;;
  for_each (seq 0 (num_files x - 1))
    (train_file x fuel args beta_t_list n_iter epoch) l.

Definition locals0 : locals :=
  {| global_step := 0; tr_loss := F64.zero; logging_loss := F64.zero;
     beta_t := F64.zero |}.

(** Lines 391-404: the number of epochs and the scheduler's
    [t_total]; every [//] raises on a zero divisor. *)
Definition plan_epochs (env : environ) (x : externals) (args : Args)
    : result (pynum * Z) :=
  if gradient_accumulation_steps args =? 0 then Raise ZeroDivisionError
  else
    let per_pass := len_train_dataloader x / gradient_accumulation_steps args in
    let planned :=
      if 0 <? max_steps args then
        if per_pass =? 0 then Raise ZeroDivisionError
        else Ok (PyInt (max_steps args / per_pass + 1), max_steps args)
      else Ok (PyFloat (num_train_epochs args), per_pass) in
    match planned with
    | Raise e => Raise e
    | Ok (epochs, t_total) =>
        if distributed args then
          if ompi_size env =? 0 then Raise ZeroDivisionError
          else Ok (epochs, t_total / ompi_size env)
        else Ok (epochs, t_total)
    end.

(** Lines 485-486: the estimated number of iterations. *)
Definition estimate_n_iter (x : externals) (args : Args) (epochs : pynum)
    : result Z :=
  let n_gpu := if local_rank args =? -1 then 1 else world_size x in
  let train_batch_size := per_gpu_train_batch_size args * Z.max 1 n_gpu in
  if train_batch_size =? 0 then Raise ZeroDivisionError
  else
    let n_iter_per_file :=
      F64.div (F64.of_Z (num_examples x)) (F64.of_Z train_batch_size) in
    F64.to_int
      (F64.mul (F64.mul (py_float epochs) n_iter_per_file)
               (F64.of_Z (Z.of_nat (num_files x)))).

(** Lines 383-644 of [train]: everything before the [return]. *)
Definition train_loops (x : externals) (fuel : nat) (env : environ)
    (args : Args) : M locals :=
  when (in_minus1_0 (local_rank args)) (emit TbWriterOpen);;;
  plan <- lift (plan_epochs env x args);;
  let epochs := fst plan in
  emit (ZeroGrad None);;;
  n_epochs <- lift (py_int epochs);;
  n_iter <- lift (estimate_n_iter x args epochs);;
  let beta_t_list :=
    frange_cycle_zero_linear x n_iter F64.zero (beta args) 10
      (ratio_increase args) (ratio_zero args) in
  for_each (seq 0 (Z.to_nat n_epochs))
    (train_epoch x fuel args beta_t_list n_iter) locals0.

(** Line 650: [return global_step, tr_loss / global_step, optimizer]
    (the optimizer is left out of the result). *)
Definition train_return (l : locals) : M (Z * F64.t) :=
  if global_step l =? 0 then raise ZeroDivisionError
  else ret (global_step l, F64.div (tr_loss l) (F64.of_Z (global_step l))).

Definition train (x : externals) (fuel : nat) (env : environ) (args : Args)
    : M (Z * F64.t) :=
  l <- train_loops x fuel env args;;
  train_return l.

(** The schedule [train] builds at lines 487-494, when it gets there. *)
Definition schedule_of (x : externals) (env : environ) (args : Args)
    : result (list F64.t) :=
  match plan_epochs env x args with
  | Raise e => Raise e
  | Ok plan =>
      match estimate_n_iter x args (fst plan) with
      | Raise e => Raise e
      | Ok n_iter =>
          Ok (frange_cycle_zero_linear x n_iter F64.zero (beta args) 10
                (ratio_increase args) (ratio_zero args))
      end
  end.

(** ** The entry point *)

(** The options of [main] that only its start-up checks read. *)
Record startup : Type := {
  decoder_is_bert_or_roberta : bool;
  mlm : bool;
  eval_data_file_given : bool;
  do_eval : bool;
  output_dir_populated : bool;
  overwrite_output_dir : bool;
  do_train : bool
}.

Definition with_local_rank (args : Args) (r : Z) : Args :=
  {| local_rank := r;
     max_steps := max_steps args;
     num_train_epochs := num_train_epochs args;
     gradient_accumulation_steps := gradient_accumulation_steps args;
     per_gpu_train_batch_size := per_gpu_train_batch_size args;
     logging_steps := logging_steps args;
     save_steps := save_steps args;
     beta := beta args;
     ratio_increase := ratio_increase args;
     ratio_zero := ratio_zero args;
     use_beta_schedule := use_beta_schedule args;
     use_deterministic_connect := use_deterministic_connect args;
     use_philly := use_philly args;
     distributed := distributed args;
     evaluate_during_training := evaluate_during_training args |}.

(** Lines 982-1208 of [main]: the start-up checks, the topology, the
    call of [train] and the final checkpoint. *)
Definition main (x : externals) (fuel : nat) (env : environ) (s : startup)
    (args : Args) : M unit :=
  when (decoder_is_bert_or_roberta s && negb (mlm s)) (raise ValueError);;;
  when (negb (eval_data_file_given s) && do_eval s) (raise ValueError);;;
  when (output_dir_populated s && do_train s && negb (overwrite_output_dir s))
       (raise ValueError);;;
  gpus <- lift (gpu_indices env true);;
  let args := with_local_rank args (ompi_rank env) in
  _ <- lift (py_getitem gpus 0);;
  global_step <-
    (if do_train s
     then r <- train x fuel env args;; ret (fst r)
     else ret 0);;
  when (do_train s && ((local_rank args =? -1) || (dist_rank x =? 0)))
       (save_checkpoint x fuel args global_step).

(** ** Observations on the event log *)

(** A batch on which gradients are applied: line 595. *)
Definition boundary (args : Args) (p : pos) : bool :=
  (p_step p + 1) mod gradient_accumulation_steps args =? 0.

Definition is_forward (e : event) : bool :=
  match e with Forward _ _ _ _ => true | _ => false end.
Definition is_boundary_forward (args : Args) (e : event) : bool :=
  match e with Forward p _ _ _ => boundary args p | _ => false end.
Definition is_clip (e : event) : bool :=
  match e with ClipGradNorm _ => true | _ => false end.
Definition is_optimizer_step (e : event) : bool :=
  match e with OptimizerStep _ => true | _ => false end.
Definition is_scheduler_step (e : event) : bool :=
  match e with SchedulerStep _ => true | _ => false end.
Definition is_loop_zero_grad (e : event) : bool :=
  match e with ZeroGrad (Some _) => true | _ => false end.

Definition count (f : event -> bool) (tr : list event) : Z :=
  Z.of_nat (List.length (filter f tr)).

(** The turns of the file loop, in order: (epoch, idx_file). *)
Definition file_turns (tr : list event) : list (nat * nat) :=
  flat_map (fun e => match e with FileBegin ep i => [(ep, i)] | _ => [] end) tr.

(** The worlds an outcome can end in. *)
Definition final_world {A} (o : outcome A) : option world :=
  match o with Done _ w => Some w | Fail _ w => Some w | Hang => None end.

(** ** Reasoning about monadic code *)

Definition sat {A} (Q : A -> world -> Prop) (E : exn -> world -> Prop)
    (o : outcome A) : Prop :=
  match o with
  | Done a w => Q a w
  | Fail e w => E e w
  | Hang => True
  end.



(** Invariants that do not look at the file system, and invariants
    that do not mind the attempt counter being logged. *)
Definition fs_blind (I : world -> Prop) : Prop :=
  forall w ds fs n, I w ->
    I {| fs_dirs := ds; fs_files := fs; fs_writes := n;
         forwards := forwards w; trace := trace w |}.

Definition attempt_log_blind (I : world -> Prop) : Prop :=
  forall w n, I w -> I (log_event w (SaveAttemptLogged n)).

Definition keeps (I : world -> Prop) {A} (c : M A) : Prop :=
  forall w, I w -> sat (fun _ => I) (fun _ => I) (c w).


(** The events [train] logs outside the batch loop. *)
Definition structural (x : externals) (e : event) : Prop :=
  match e with
  | TbWriterOpen | LoaderReset _ | ZeroGrad None => True
  | FileBegin _ i => (i + 1 < num_files x)%nat
  | _ => False
  end.

(** What lines 534-554 give a forward call, for the schedule that
    [train] built: the step counter, the weight and the mode. *)
Definition forward_ok (args : Args) (built : result (list F64.t))
    (e : event) : Prop :=
  match e with
  | Forward _ gs b m =>
      exists sched,
        built = Ok sched /\
        0 <= gs /\
        (use_beta_schedule args = true ->
           (gs < Z.of_nat (List.length sched) ->
              nth_error sched (Z.to_nat gs) = Some b) /\
           (Z.of_nat (List.length sched) <= gs -> b = F64.one)) /\
        (use_beta_schedule args = false -> b = F64.zero) /\
        m = fb_mode_of args b
  | _ => True
  end.

(** The events of one batch: everything [train_batch] can log. *)
Definition batch_event (e : event) : Prop :=
  match e with
  | TbWriterOpen | LoaderReset _ | FileBegin _ _ | ZeroGrad None => False
  | _ => True
  end.

(** What the loops may log, by lines 506 and 595-609: only turns of
    the file loop before the last file, and optimizer work only on
    accumulation boundaries. *)
Definition loop_event_ok (x : externals) (args : Args) (e : event) : Prop :=
  match e with
  | FileBegin _ i => (i + 1 < num_files x)%nat
  | ClipGradNorm p | OptimizerStep p | SchedulerStep p | ZeroGrad (Some p) =>
      boundary args p = true
  | _ => True
  end.

(** The turns of the file loop of a run of [n_epochs] epochs over
    [n_files] files. *)
Definition all_file_turns (n_epochs n_files : nat) : list (nat * nat) :=
  flat_map (fun ep => map (pair ep) (seq 0 (n_files - 1))) (seq 0 n_epochs).

(** How often the log shows a forward call on an accumulation
    boundary, a gradient clipping, an optimizer step, a scheduler
    step and a gradient zeroing inside the loops. *)
Definition tally (args : Args) (tr : list event) : Z * Z * Z * Z * Z :=
  (count (is_boundary_forward args) tr, count is_clip tr,
   count is_optimizer_step tr, count is_scheduler_step tr,
   count is_loop_zero_grad tr).

Definition b2z (b : bool) : Z := if b then 1 else 0.

(** The three start-up checks of [main] all pass. *)
Definition startup_ok (s : startup) : bool :=
  negb (decoder_is_bert_or_roberta s && negb (mlm s))
  && negb (negb (eval_data_file_given s) && do_eval s)
  && negb (output_dir_populated s && do_train s && negb (overwrite_output_dir s)).

(** The file system of a world: directories, files and the number of
    writes issued. *)
Definition file_system (w : world) : list dir * list file * nat :=
  (fs_dirs w, fs_files w, fs_writes w).

(** The world after [k] attempts in a row have failed, the first of
    them numbered [n + 1]; [None] when one of them does not fail. *)
Fixpoint after_failures (body : Z -> M unit) (n : Z) (k : nat) (w : world)
    : option world :=
  match k with
  | O => Some w
  | S k' =>
      match body (n + 1) w with
      | Fail _ w1 => after_failures body (n + 1) k' w1
      | _ => None
      end
  end.

(** ** Sample runs *)

Definition half : F64.t := F64.div (F64.of_Z 1) (F64.of_Z 2).

(** A schedule generator that holds the stop value from the start. *)
Definition hold_stop (n_iter : Z) (start stop : F64.t) (n_cycle : Z)
    (ratio_increase ratio_zero : F64.t) : list F64.t :=
  repeat stop (Z.to_nat n_iter).

(** A corpus of [n_files] files whose first file has [n_examples]
    examples, a loader that yields [n_batches] batches at every turn,
    a wrapped model whose loss is always 1.0, and a storage that
    refuses its first [refused] writes. *)
Definition sample_externals (n_files : nat) (n_examples : Z)
    (n_batches : nat) (refused : nat) : externals :=
  {| faulty := fun n => (n <? refused)%nat;
     loss_item := fun _ => F64.one;
     frange_cycle_zero_linear := hold_stop;
     len_train_dataloader := Z.of_nat n_batches;
     num_examples := n_examples;
     batches := fun _ _ => n_batches;
     num_files := n_files;
     has_module := true;
     world_size := 1;
     dist_rank := 0 |}.

Definition sample_args (rank steps_max : Z) (epochs : Z) (gas : Z)
    (target : F64.t) (schedule : bool) : Args :=
  {| local_rank := rank;
     max_steps := steps_max;
     num_train_epochs := F64.of_Z epochs;
     gradient_accumulation_steps := gas;
     per_gpu_train_batch_size := 4;
     logging_steps := 0;
     save_steps := 1;
     beta := target;
     ratio_increase := F64.zero;
     ratio_zero := F64.zero;
     use_beta_schedule := schedule;
     use_deterministic_connect := false;
     use_philly := false;
     distributed := false;
     evaluate_during_training := false |}.

Definition world_of {A} (o : outcome A) : world :=
  match final_world o with Some w => w | None => world0 end.

Definition value_of {A} (o : outcome A) (default : A) : A :=
  match o with Done a _ => a | _ => default end.

(** The forward calls of a log: position, step counter and weight. *)
Definition forward_calls (tr : list event) : list (nat * nat * Z * Z * F64.t) :=
  flat_map (fun e => match e with
                     | Forward p gs b _ => [(p_epoch p, p_file p, p_step p, gs, b)]
                     | _ => []
                     end) tr.

(** Two batches per turn, three files, [max_steps = 2], no
    accumulation: [train] plans [2 // 2 + 1 = 2] epochs. *)
Definition capped_run : outcome (Z * F64.t) :=
  train (sample_externals 3 8 2 0) 0 (host 1 0 1)
        (sample_args 1 2 1 1 F64.one true) world0.

(** One epoch over three files of four examples, two batches per
    turn, target weight 0.5, schedule on: the schedule has
    [int(1.0 * (4 / 4) * 3) = 3] entries. *)
Definition long_run : outcome (Z * F64.t) :=
  train (sample_externals 3 4 2 0) 0 (host 1 0 1)
        (sample_args 1 (-1) 1 1 half true) world0.

(** The same run with the schedule switched off. *)
Definition unscheduled_run : outcome (Z * F64.t) :=
  train (sample_externals 3 4 2 0) 0 (host 1 0 1)
        (sample_args 1 (-1) 1 1 half false) world0.

(** Two epochs, three files, four batches per turn, gradients
    accumulated over two batches, no step bound, on rank 0. *)
Definition accumulating_run : outcome (Z * F64.t) :=
  train (sample_externals 3 16 4 0) 0 (host 1 0 1)
        (sample_args 0 (-1) 2 2 F64.one true) world0.

(** Whether every local rank gets the block [r * k .. (r + 1) * k - 1]
    on a host with [ls] processes and [ls * k] GPUs. *)
Definition even_blocks (ls k : nat) : bool :=
  forallb
    (fun r =>
       match gpu_indices (host (Z.of_nat ls) (Z.of_nat r) (Z.of_nat (ls * k))) true with
       | Ok l => if list_eq_dec Z.eq_dec l (map Z.of_nat (seq (r * k) k))
                 then true else false
       | Raise _ => false
       end)
    (seq 0 ls).

(** One epoch over three files, three batches per turn, gradients
    accumulated over two batches. *)
Definition odd_run : outcome (Z * F64.t) :=
  train (sample_externals 3 12 3 0) 0 (host 1 0 1)
        (sample_args 1 (-1) 1 2 F64.one true) world0.

(** * The rest of the driver: environment, host files, GPU listing *)

(** ** Python strings

    Text is ASCII here: a [string] of the library, one [ascii] per
    character. *)

Module Str.

(** [str.isspace] on one ASCII character: tab to carriage return,
    the four separators 28-31 and the space. *)
Definition is_space (c : ascii) : bool :=
  let n := nat_of_ascii c in
  ((9 <=? n) && (n <=? 13) || (28 <=? n) && (n <=? 32))%nat.

Fixpoint lstrip (s : string) : string :=
  match s with
  | EmptyString => EmptyString
  | String c s' => if is_space c then lstrip s' else s
  end.

Fixpoint rstrip (s : string) : string :=
  match s with
  | EmptyString => EmptyString
  | String c s' =>
      match rstrip s' with
      | EmptyString => if is_space c then EmptyString else String c EmptyString
      | r => String c r
      end
  end.

(** [s.strip()] *)
Definition strip (s : string) : string := rstrip (lstrip s).

(** [s.split(sep)] for a separator of one character: never empty. *)
Fixpoint split (sep : ascii) (s : string) : list string :=
  match s with
  | EmptyString => [EmptyString]
  | String c s' =>
      if Ascii.eqb c sep then EmptyString :: split sep s'
      else match split sep s' with
           | h :: t => String c h :: t
           | [] => [String c EmptyString]
           end
  end.

Definition LF : ascii := ascii_of_nat 10.
Definition CR : ascii := ascii_of_nat 13.

(** What a file opened in text mode hands out: ["\r\n"] and ["\r"]
    read as ["\n"]. *)
Fixpoint universal_newlines (s : string) : string :=
  match s with
  | EmptyString => EmptyString
  | String c s' =>
      if Ascii.eqb c CR then
        match s' with
        | String c' s'' =>
            if Ascii.eqb c' LF then String LF (universal_newlines s'')
            else String LF (universal_newlines s')
        | EmptyString => String LF EmptyString
        end
      else String c (universal_newlines s')
  end.

(** The lines of a text, each with its ["\n"] when it has one. *)
Fixpoint keepends (s : string) : list string :=
  match s with
  | EmptyString => []
  | String c s' =>
      if Ascii.eqb c LF then String c EmptyString :: keepends s'
      else match keepends s' with
           | h :: t => String c h :: t
           | [] => [String c EmptyString]
           end
  end.

(** [f.readlines()] and [f.readline()] on a freshly opened file. *)
Definition readlines (content : string) : list string :=
  keepends (universal_newlines content).

Definition readline (content : string) : string :=
  match readlines content with
  | l :: _ => l
  | [] => EmptyString
  end.

Definition is_digit (c : ascii) : bool :=
  let n := nat_of_ascii c in ((48 <=? n) && (n <=? 57))%nat.

Definition digit_value (c : ascii) : Z := Z.of_nat (nat_of_ascii c - 48).

(** The digits of a decimal literal, with single underscores allowed
    between digits. *)
Fixpoint digits (s : string) (acc : Z) (after_digit : bool) : option Z :=
  match s with
  | EmptyString => if after_digit then Some acc else None
  | String c s' =>
      if is_digit c then digits s' (10 * acc + digit_value c) true
      else if Ascii.eqb c "_" then
             if after_digit then digits s' acc false else None
      else None
  end.

(** [int(s)] on a string: surrounding white space, a sign, digits. *)
Definition to_int (s : string) : result Z :=
  let body :=
    match strip s with
    | String "+" r => digits r 0 false
    | String "-" r => option_map Z.opp (digits r 0 false)
    | t => digits t 0 false
    end in
  match body with
  | Some z => Ok z
  | None => Raise ValueError
  end.

End Str.

(** ** The process environment *)

(** [os.environ] *)
Definition environment : Type := string -> option string.

(** [int(os.environ.get(name) or default)]: a variable that is
    missing or empty gives the default, anything else is parsed. *)
Definition env_int (e : environment) (name : string) (default : Z) : result Z :=
  match e name with
  | None | Some EmptyString => Ok default
  | Some v => Str.to_int v
  end.

(** [ompi_rank()], [ompi_size()], [ompi_local_rank()] and
    [ompi_local_size()] *)
Definition read_ompi_rank (e : environment) : result Z :=
  env_int e "OMPI_COMM_WORLD_RANK" 0.
Definition read_ompi_size (e : environment) : result Z :=
  env_int e "OMPI_COMM_WORLD_SIZE" 1.
Definition read_ompi_local_rank (e : environment) : result Z :=
  env_int e "OMPI_COMM_WORLD_LOCAL_RANK" 0.
Definition read_ompi_local_size (e : environment) : result Z :=
  env_int e "OMPI_COMM_WORLD_LOCAL_SIZE" 1.

(** [get_gpus_nocache()], from what [nvidia-smi] printed. *)
Definition get_gpus_nocache (stdout : string) : list string :=
  map Str.strip (Str.split Str.LF (Str.strip stdout)).

(** The [environ] that [gpu_indices] and [main] work with. *)
Definition resolve_environ (e : environment) (nvidia_smi : string)
    : result environ :=
  match read_ompi_rank e, read_ompi_size e,
        read_ompi_local_rank e, read_ompi_local_size e with
  | Ok r, Ok s, Ok lr, Ok ls =>
      Ok {| ompi_rank := r; ompi_size := s; ompi_local_rank := lr;
            ompi_local_size := ls;
            gpu_count := Z.of_nat (List.length (get_gpus_nocache nvidia_smi)) |}
  | _, _, _, _ => Raise ValueError
  end.

(** ** The host files *)

(** [get_master_machine()]: the first line of [~/mpi-hosts]. *)
Definition get_master_machine (mpi_hosts : string) : string :=
  Str.strip (Str.readline mpi_hosts).

(** What [get_master_ip] ends with: the address, an [IndexError] from
    [pair_list[1]] or a [KeyError] from [name2ip[master_name]]. *)
Inductive master_ip : Type :=
| Address (ip : string)
| NoSecondField
| UnknownHost.

(** The dictionary [name2ip], most recent entry first. *)
Definition name2ip : Type := list (string * string).

Fixpoint lookup (key : string) (d : name2ip) : option string :=
  match d with
  | [] => None
  | (k, v) :: rest => if String.eqb k key then Some v else lookup key rest
  end.

(** One turn of the loop of lines 159-163. *)
Definition read_pair (d : name2ip) (name_ip_pair : string) : option name2ip :=
  match Str.split " " name_ip_pair with
  | value :: field1 :: _ => Some ((Str.strip field1, value) :: d)
  | _ => None
  end.

Fixpoint read_pairs (d : name2ip) (name_ip_pairs : list string)
    : option name2ip :=
  match name_ip_pairs with
  | [] => Some d
  | line :: rest =>
      match read_pair d line with
      | Some d' => read_pairs d' rest
      | None => None
      end
  end.

Definition get_master_ip (master_name : option string)
    (mpi_hosts etc_hosts : string) : master_ip :=
  let master_name :=
    match master_name with
    | Some m => m
    | None => get_master_machine mpi_hosts
    end in
  match read_pairs [] (Str.readlines etc_hosts) with
  | None => NoSecondField
  | Some d =>
      match lookup master_name d with
      | Some ip => Address ip
      | None => UnknownHost
      end
  end.

(** ** Block size

    Lines 1101-1105 and 1127-1131 of [main], once for each tokenizer:
    a request that is not positive becomes the tokenizer's maximum,
    and no request exceeds it. *)
Definition clamp_block_size (block_size max_len_single_sentence : Z) : Z :=
  let block_size :=
    if block_size <=? 0 then max_len_single_sentence else block_size in
  Z.min block_size max_len_single_sentence.

Definition resolve_block_size (block_size encoder_max decoder_max : Z) : Z :=
  clamp_block_size (clamp_block_size block_size encoder_max) decoder_max.

(** ** Observations on text *)

(** How often a character occurs. *)
Fixpoint occurrences (c : ascii) (s : string) : nat :=
  match s with
  | EmptyString => 0
  | String a s' => (if Ascii.eqb a c then 1 else 0) + occurrences c s'
  end.

Fixpoint no_space (s : string) : bool :=
  match s with
  | EmptyString => true
  | String c s' => negb (Str.is_space c) && no_space s'
  end.

(** The decimal numeral of a natural number, as a launcher writes a
    rank or a size into the environment. *)
Definition decimal (n : nat) : string :=
  DecimalString.NilEmpty.string_of_uint (Nat.to_uint n).

(** What [read_pair] enters for a line: the second field, stripped,
    and the first field. *)
Definition entry (name_ip_pair : string) : option (string * string) :=
  match Str.split " " name_ip_pair with
  | value :: field1 :: _ => Some (Str.strip field1, value)
  | _ => None
  end.

(** The environment a launcher sets up for one process. *)
Definition launched (rank size lrank lsize : nat) : environment :=
  fun name =>
    if String.eqb name "OMPI_COMM_WORLD_RANK" then Some (decimal rank)
    else if String.eqb name "OMPI_COMM_WORLD_SIZE" then Some (decimal size)
    else if String.eqb name "OMPI_COMM_WORLD_LOCAL_RANK" then Some (decimal lrank)
    else if String.eqb name "OMPI_COMM_WORLD_LOCAL_SIZE" then Some (decimal lsize)
    else None.


(** An environment without any variable. *)
Definition bare : environment := fun _ => None.

(** The entries of a list of lines, in the order of the lines. *)
Definition entries (name_ip_pairs : list string) : name2ip :=
  flat_map (fun l => match entry l with Some en => [en] | None => [] end)
           name_ip_pairs.

(** The host [get_master_ip] looks for. *)
Definition wanted_host (master_name : option string) (mpi_hosts : string)
    : string :=
  match master_name with
  | Some m => m
  | None => get_master_machine mpi_hosts
  end.

(** Sample host files. *)
Definition hosts_line (ip sep name : string) : string :=
  (ip ++ sep ++ name ++ String Str.LF EmptyString)%string.

(** Where a rank's block starts and how long it is when [n] devices
    are split unevenly among [k] ranks. *)
Definition block_start (n k r : Z) : Z := r * (n / k) + Z.min r (n mod k).
Definition block_size (n k r : Z) : Z :=
  if r <? n mod k then n / k + 1 else n / k.

(** ** Observations on checkpoints *)

(** The files one artifact consists of, last written first.  The
    arguments beside the decoder are named after the encoder in
    strict mode (line 338). *)
Definition artifact_files (philly : bool) (k : ckpt_kind) (gs : Z) : list file :=
  let d := artifact_dir k gs in
  match k with
  | Encoder => [(d, "training_encoder_args.bin"); (d, "pytorch_model.bin")]
  | Decoder =>
      [(d, if philly then "training_decoder_args.bin"
           else "training_encoder_args.bin");
       (d, "pytorch_model.bin")]
  | Full => [(d, "training.bin")]
  end%string.

Definition checkpoint_files (philly : bool) (gs : Z) : list file :=
  artifact_files philly Full gs ++ artifact_files philly Decoder gs
  ++ artifact_files philly Encoder gs.

(** A storage that refuses every write, and the resilient variant of
    a set of arguments. *)
Definition refusing (x : externals) : externals :=
  {| faulty := fun _ => true;
     loss_item := loss_item x;
     frange_cycle_zero_linear := frange_cycle_zero_linear x;
     len_train_dataloader := len_train_dataloader x;
     num_examples := num_examples x;
     batches := batches x;
     num_files := num_files x;
     has_module := has_module x;
     world_size := world_size x;
     dist_rank := dist_rank x |}.

Definition resilient (args : Args) : Args :=
  {| local_rank := local_rank args;
     max_steps := max_steps args;
     num_train_epochs := num_train_epochs args;
     gradient_accumulation_steps := gradient_accumulation_steps args;
     per_gpu_train_batch_size := per_gpu_train_batch_size args;
     logging_steps := logging_steps args;
     save_steps := save_steps args;
     beta := beta args;
     ratio_increase := ratio_increase args;
     ratio_zero := ratio_zero args;
     use_beta_schedule := use_beta_schedule args;
     use_deterministic_connect := use_deterministic_connect args;
     use_philly := true;
     distributed := distributed args;
     evaluate_during_training := evaluate_during_training args |}.

(** The three changes a save can make to the file system. *)
Definition add_dir (w : world) (d : dir) : world :=
  {| fs_dirs := d :: fs_dirs w; fs_files := fs_files w;
     fs_writes := fs_writes w; forwards := forwards w; trace := trace w |}.
Definition add_file (w : world) (f : file) : world :=
  {| fs_dirs := fs_dirs w; fs_files := f :: fs_files w;
     fs_writes := S (fs_writes w); forwards := forwards w; trace := trace w |}.
Definition refuse_write (w : world) : world :=
  {| fs_dirs := fs_dirs w; fs_files := fs_files w;
     fs_writes := S (fs_writes w); forwards := forwards w; trace := trace w |}.

(** A world that grew out of another: what was there is still there,
    under what was added. *)
Definition grew_from (w0 w : world) : Prop :=
  (exists ds, fs_dirs w = ds ++ fs_dirs w0) /\
  (exists fs, fs_files w = fs ++ fs_files w0) /\
  (fs_writes w0 <= fs_writes w)%nat /\
  (exists evs, trace w = trace w0 ++ evs).

(** A step at which [train] saves: lines 635-640. *)
Definition save_point (args : Args) (gs : Z) : Prop :=
  in_minus1_0 (local_rank args) = true /\
  0 < save_steps args /\ gs mod save_steps args = 0.

(** ** Observations on one batch *)

(** What [train_batch] can log after its forward call. *)
Definition after_forward_event (e : event) : Prop :=
  match e with
  | LogProgress _ _ | Backward _ | ClipGradNorm _ | OptimizerStep _
  | SchedulerStep _ | ZeroGrad (Some _) | Evaluate _ | TbScalars _
  | SaveAttemptLogged _ => True
  | _ => False
  end.

(** What a batch that completes hands back: the step counter went up
    by one exactly on a boundary, and the flag says whether the run
    has passed a positive [max_steps]. *)
Definition batch_result (args : Args) (p : pos) (l : locals)
    (r : locals * bool) : Prop :=
  snd r = ((0 <? max_steps args) && (max_steps args <? global_step (fst r))) /\
  gradient_accumulation_steps args <> 0 /\
  global_step (fst r) = global_step l + b2z (boundary args p).

(** The ways a batch can fail. *)
Definition batch_error (x : externals) (args : Args) (sched : list F64.t)
    (l : locals) (e : exn) : Prop :=
  schedule_gate args sched (global_step l) (beta_t l) = Raise e \/
  (e = AttributeError /\ has_module x = false) \/
  e = ZeroDivisionError \/
  (e = StorageError /\ use_philly args = false).

(** The ways [train] can fail before its loops. *)
Definition prologue_error (env : environ) (x : externals) (args : Args)
    (e : exn) : Prop :=
  plan_epochs env x args = Raise e \/
  exists plan,
    plan_epochs env x args = Ok plan /\
    (py_int (fst plan) = Raise e \/
     estimate_n_iter x args (fst plan) = Raise e).

(** ** Observations on the step bound *)

(** Line 642: the run has passed a positive [max_steps]. *)
Definition past_max_steps (args : Args) (gs : Z) : bool :=
  (0 <? max_steps args) && (max_steps args <? gs).

(** A forward call made after the bound was passed is the first of
    its file turn. *)
Definition first_batch_when_past (args : Args) (e : event) : Prop :=
  match e with
  | Forward p gs _ _ => past_max_steps args gs = true -> p_step p = 0
  | _ => True
  end.

(** The arguments with another [--num_train_epochs]. *)
Definition with_num_train_epochs (args : Args) (f : F64.t) : Args :=
  {| local_rank := local_rank args;
     max_steps := max_steps args;
     num_train_epochs := f;
     gradient_accumulation_steps := gradient_accumulation_steps args;
     per_gpu_train_batch_size := per_gpu_train_batch_size args;
     logging_steps := logging_steps args;
     save_steps := save_steps args;
     beta := beta args;
     ratio_increase := ratio_increase args;
     ratio_zero := ratio_zero args;
     use_beta_schedule := use_beta_schedule args;
     use_deterministic_connect := use_deterministic_connect args;
     use_philly := use_philly args;
     distributed := distributed args;
     evaluate_during_training := evaluate_during_training args |}.

(** ** The exceptions of [train] *)

Definition train_error (x : externals) (args : Args) (e : exn) : Prop :=
  e = ZeroDivisionError \/ e = ValueError \/ e = OverflowError \/
  (e = AttributeError /\ has_module x = false) \/
  (e = StorageError /\ use_philly args = false).

(** ** Masking for masked language modelling *)

(** Tensors are flattened to lists; a [torch.uint8] tensor holds
    integers in [0, 255].  Every tensor that [mask_tokens] builds has
    the shape of its [inputs], so the elementwise operations below
    only ever meet operands of one length. *)
Module Tensor.

Definition uint8 (b : bool) : Z := if b then 1 else 0.

(** [torch.bernoulli(torch.full(shape, p)).to(torch.uint8)], the
    draws taken from [draw], one per position. *)
Definition bernoulli (draw : nat -> bool) (n : nat) : list Z :=
  map (fun i => uint8 (draw i)) (seq 0 n).

(** [a & b] *)
Definition band (a b : list Z) : list Z :=
  map (fun p => Z.land (fst p) (snd p)) (combine a b).

(** [~a] on [torch.uint8] *)
Definition bnot (a : list Z) : list Z :=
  map (fun m => Z.lnot m mod 256) a.

(** [a == v] *)
Definition eq_scalar (a : list Z) (v : Z) : list Z :=
  map (fun m => uint8 (m =? v)) a.

(** [xs[mask] = v] *)
Definition masked_fill (xs mask : list Z) (v : Z) : list Z :=
  map (fun p => if snd p =? 0 then fst p else v) (combine xs mask).

(** [ys[mask]]: the selected elements, in order. *)
Fixpoint masked_select (ys mask : list Z) : list Z :=
  match ys, mask with
  | y :: ys', m :: mask' =>
      if m =? 0 then masked_select ys' mask'
      else y :: masked_select ys' mask'
  | _, _ => []
  end.

(** [xs[mask] = vals]: the values go to the selected positions in
    order; [None] when their number is not the number of selected
    positions, where torch raises. *)
Fixpoint masked_scatter (xs mask vals : list Z) : option (list Z) :=
  match xs, mask with
  | x :: xs', m :: mask' =>
      if m =? 0
      then option_map (cons x) (masked_scatter xs' mask' vals)
      else match vals with
           | v :: vals' => option_map (cons v) (masked_scatter xs' mask' vals')
           | [] => None
           end
  | _, _ => match vals with [] => Some xs | _ :: _ => None end
  end.

End Tensor.

(** What [mask_tokens] draws at random: the three Bernoulli draws and
    the random words, by position. *)
Record randomness : Type := {
  mlm_draw : nat -> bool;
  replace_draw : nat -> bool;
  random_draw : nat -> bool;
  random_word : nat -> Z
}.

(** Lines 252-279; [mask_token] is
    [tokenizer.convert_tokens_to_ids(tokenizer.mask_token)]. *)
Definition mask_tokens (rnd : randomness) (mask_token : Z) (inputs : list Z)
    : option (list Z * list Z) :=
  let shape := List.length inputs in
  let labels := inputs in
  let masked_indices := Tensor.bernoulli (mlm_draw rnd) shape in
  let labels :=
    Tensor.masked_fill labels (Tensor.eq_scalar masked_indices 1) (-1) in
  let indices_replaced :=
    Tensor.band (Tensor.bernoulli (replace_draw rnd) shape) masked_indices in
  let inputs := Tensor.masked_fill inputs indices_replaced mask_token in
  let indices_random :=
    Tensor.band
      (Tensor.band (Tensor.bernoulli (random_draw rnd) shape) masked_indices)
      (Tensor.bnot indices_replaced) in
  let random_words := map (random_word rnd) (seq 0 shape) in
  match Tensor.masked_scatter inputs indices_random
          (Tensor.masked_select random_words indices_random) with
  | Some inputs => Some (inputs, labels)
  | None => None
  end.

(** What [mask_tokens] does to the token [t] at position [i]. *)
Definition masked_token (rnd : randomness) (mask_token : Z) (i : nat) (t : Z)
    : Z :=
  if mlm_draw rnd i then
    if replace_draw rnd i then mask_token
    else if random_draw rnd i then random_word rnd i else t
  else t.

Definition masked_label (rnd : randomness) (i : nat) (t : Z) : Z :=
  if mlm_draw rnd i then -1 else t.

(** A random source that selects the even positions, replaces at the
    multiples of four and draws a random word everywhere else. *)
Definition sample_randomness : randomness :=
  {| mlm_draw := Nat.even;
     replace_draw := fun i => (i mod 4 =? 0)%nat;
     random_draw := fun _ => true;
     random_word := fun i => 1000 + Z.of_nat i |}.

(** ** Checkpoints on the file system *)

(** The five files of the checkpoint of step [gs] are there. *)
Definition saved (philly : bool) (gs : Z) (w : world) : Prop :=
  incl (checkpoint_files philly gs) (fs_files w).

(** The accumulating run in resilient mode, on a storage that refuses
    its first three writes. *)
Definition resilient_run : outcome (Z * F64.t) :=
  train (sample_externals 3 16 4 3) 5 (host 1 0 1)
        (resilient (sample_args 0 (-1) 2 2 F64.one true)) world0.

(** ** Observations on reporting *)

(** A step counter at which [train] reports. *)
Definition reporting_step (args : Args) (gs : Z) : Prop :=
  0 < logging_steps args /\ gs mod logging_steps args = 0.

(** Who may report what, by lines 564-584 and 611-633. *)
Definition report_ok (args : Args) (e : event) : Prop :=
  match e with
  | LogProgress _ gs => use_philly args = true /\ reporting_step args gs
  | TbScalars gs =>
      in_minus1_0 (local_rank args) = true /\ reporting_step args gs
  | Evaluate gs =>
      local_rank args = -1 /\ evaluate_during_training args = true /\
      reporting_step args gs
  | _ => True
  end.

(** One epoch on rank 0 in resilient mode, reporting every second
    step and never saving. *)
Definition reporting_args : Args :=
  {| local_rank := 0;
     max_steps := -1;
     num_train_epochs := F64.of_Z 1;
     gradient_accumulation_steps := 1;
     per_gpu_train_batch_size := 4;
     logging_steps := 2;
     save_steps := 0;
     beta := F64.one;
     ratio_increase := F64.zero;
     ratio_zero := F64.zero;
     use_beta_schedule := true;
     use_deterministic_connect := false;
     use_philly := true;
     distributed := false;
     evaluate_during_training := false |}.

Definition reporting_run : outcome (Z * F64.t) :=
  train (sample_externals 3 16 4 0) 1 (host 1 0 1) reporting_args world0.
(** * Proofs *)

Lemma sat_bind {A B} (c : M A) (k : A -> M B) Q E w :
  sat (fun a w' => sat Q E (k a w')) E (c w) -> sat Q E (bind c k w).
Proof. unfold bind. destruct (c w); simpl; auto. Qed.

Lemma sat_mono {A} (Q Q' : A -> world -> Prop) (E E' : exn -> world -> Prop) o :
  sat Q E o ->
  (forall a w, Q a w -> Q' a w) -> (forall e w, E e w -> E' e w) ->
  sat Q' E' o.
Proof. destruct o; simpl; auto. Qed.

Lemma sat_lift {A} (r : result A) Q E w :
  match r with Ok a => Q a w | Raise e => E e w end -> sat Q E (lift r w).
Proof. destruct r; simpl; auto. Qed.

Lemma sat_when (b : bool) (c : M unit) Q E w :
  (b = true -> sat Q E (c w)) -> (b = false -> Q tt w) ->
  sat Q E (when b c w).
Proof. destruct b; simpl; auto. Qed.

Lemma sat_emit e Q E w : Q tt (log_event w e) -> sat Q E (emit e w).
Proof. auto. Qed.

Lemma keeps_bind (I : world -> Prop) {A B} (c : M A) (k : A -> M B) :
  keeps I c -> (forall a, keeps I (k a)) -> keeps I (bind c k).
Proof.
  intros Hc Hk w Hw. apply sat_bind.
  eapply sat_mono; [apply Hc, Hw | | auto].
  intros a w' Hw'. apply Hk, Hw'.
Qed.

Lemma keeps_ret (I : world -> Prop) {A} (a : A) : keeps I (ret a).
Proof. intros w Hw. exact Hw. Qed.

Lemma keeps_raise (I : world -> Prop) {A} e : keeps I (@raise A e).
Proof. intros w Hw. exact Hw. Qed.

Lemma keeps_when (I : world -> Prop) b c : keeps I c -> keeps I (when b c).
Proof. destruct b; simpl; auto using keeps_ret. Qed.

Lemma keeps_storage_write I x f : fs_blind I -> keeps I (storage_write x f).
Proof.
  intros HI w Hw. unfold storage_write.
  destruct (faulty x (fs_writes w)); simpl; apply HI, Hw.
Qed.

Lemma keeps_try_pass I (c : M unit) : keeps I c -> keeps I (try_pass c).
Proof.
  intros Hc w Hw. unfold try_pass. specialize (Hc w Hw).
  destruct (c w); simpl in *; auto.
Qed.

Lemma keeps_attempt I x philly k gs n :
  fs_blind I -> attempt_log_blind I -> keeps I (attempt x philly k gs n).
Proof.
  intros Hfs Hlog. unfold attempt, save_pretrained, torch_save.
  destruct k; repeat (apply keeps_bind; [ | intros _]);
    try apply keeps_storage_write; try apply keeps_when; auto.
  intros w Hw. apply Hlog, Hw.
Qed.

Lemma keeps_while_not_solid I fuel body :
  (forall n, keeps I (body n)) ->
  forall n, keeps I (while_not_solid fuel n body).
Proof.
  intros Hb. induction fuel as [|fuel IH]; intros n; simpl.
  - intros w _. exact Logic.I.
  - apply keeps_bind; [apply keeps_try_pass, Hb | ].
    intros [|]; [apply keeps_ret | apply IH].
Qed.

Lemma keeps_save_artifact I x fuel philly k gs :
  fs_blind I -> attempt_log_blind I -> keeps I (save_artifact x fuel philly k gs).
Proof.
  intros Hfs Hlog. unfold save_artifact. destruct philly.
  - apply keeps_while_not_solid. intros n. apply keeps_attempt; auto.
  - apply keeps_bind; [apply keeps_attempt; auto | intros _; apply keeps_ret].
Qed.

Lemma keeps_ensure_dir I args d : fs_blind I -> keeps I (ensure_dir args d).
Proof.
  intros Hfs. unfold ensure_dir. apply keeps_bind.
  - intros w Hw. exact Hw.
  - intros ex. apply keeps_when. intros w Hw. apply Hfs, Hw.
Qed.

Lemma keeps_save_checkpoint I x fuel args gs :
  fs_blind I -> attempt_log_blind I -> keeps I (save_checkpoint x fuel args gs).
Proof.
  intros Hfs Hlog. unfold save_checkpoint.
  repeat (apply keeps_bind; [ | intros _]);
    auto using keeps_ensure_dir, keeps_save_artifact, keeps_ret.
Qed.

(** *** Loops *)

Section LoopInvariant.
Variable J : locals -> world -> Prop.
Variable JE : exn -> world -> Prop.

Lemma batch_loop_sat body n :
  forall step0 l w,
  (forall step l w, step0 <= step < step0 + Z.of_nat n -> J l w ->
     sat (fun r w' => J (fst r) w') JE (body step l w)) ->
  J l w -> sat J JE (batch_loop n step0 body l w).
Proof.
  induction n as [|n IH]; intros step0 l w Hb Hl; simpl.
  - exact Hl.
  - apply sat_bind. eapply sat_mono; [apply Hb; [lia | exact Hl] | | auto].
    intros [l' brk] w' Hl'; simpl in *.
    destruct brk; [exact Hl' | apply IH; auto].
    intros step l2 w2 Hstep. apply Hb. lia.
Qed.

Lemma for_each_sat {X} (body : X -> locals -> M locals) xs :
  (forall v l w, In v xs -> J l w -> sat J JE (body v l w)) ->
  forall l w, J l w -> sat J JE (for_each xs body l w).
Proof.
  induction xs as [|v tl IH]; intros Hb l w Hl; simpl.
  - exact Hl.
  - apply sat_bind. eapply sat_mono; [apply Hb; simpl; auto | | auto].
    intros l' w' Hl'. apply IH; auto. intros; apply Hb; simpl; auto.
Qed.

Variable x : externals.
Variable fuel : nat.
Variable env : environ.
Variable args : Args.

Hypothesis J_fails : forall l w e, J l w -> JE e w.
Hypothesis J_structural :
  forall l w ev, structural x ev -> J l w -> J l (log_event w ev).

Section Files.
Hypothesis J_file :
  forall sched n_iter ep i l w,
    schedule_of x env args = Ok sched ->
    (i + 1 < num_files x)%nat ->
    J l w -> sat J JE (train_file x fuel args sched n_iter ep i l w).

Lemma train_epoch_sat sched n_iter epoch l w :
  schedule_of x env args = Ok sched ->
  J l w -> sat J JE (train_epoch x fuel args sched n_iter epoch l w).
Proof.
  intros Hs Hl. unfold train_epoch.
  apply sat_bind, sat_emit. apply for_each_sat.
  - intros i l' w' Hi Hl'. apply in_seq in Hi.
    apply J_file; auto. lia.
  - apply J_structural; simpl; auto.
Qed.

Lemma train_loops_sat_files w :
  J locals0 w -> sat J JE (train_loops x fuel env args w).
Proof.
  intros H0. unfold train_loops.
  assert (Hrest : forall w', J locals0 w' ->
    sat J JE
      ((plan <- lift (plan_epochs env x args);;
        emit (ZeroGrad None);;;
        n_epochs <- lift (py_int (fst plan));;
        n_iter <- lift (estimate_n_iter x args (fst plan));;
        for_each (seq 0 (Z.to_nat n_epochs))
          (train_epoch x fuel args
             (frange_cycle_zero_linear x n_iter F64.zero (beta args) 10
                (ratio_increase args) (ratio_zero args)) n_iter)
          locals0) w')).
  { intros w' Hw'. apply sat_bind, sat_lift.
    destruct (plan_epochs env x args) as [plan|e] eqn:Hplan;
      [ | eapply J_fails; eauto].
    apply sat_bind, sat_emit.
    assert (Hz : J locals0 (log_event w' (ZeroGrad None)))
      by (apply J_structural; simpl; auto).
    apply sat_bind, sat_lift.
    destruct (py_int (fst plan)) as [n_epochs|e]; [ | eapply J_fails; eauto].
    apply sat_bind, sat_lift.
    destruct (estimate_n_iter x args (fst plan)) as [n_iter|e] eqn:Hn;
      [ | eapply J_fails; eauto].
    apply for_each_sat; auto.
    intros ep l w1 _ Hl. apply train_epoch_sat; auto.
    unfold schedule_of. rewrite Hplan, Hn. reflexivity. }
  apply sat_bind. destruct (in_minus1_0 (local_rank args)); simpl.
  - apply Hrest. apply (J_structural locals0 w TbWriterOpen); simpl; auto.
  - apply Hrest, H0.
Qed.

End Files.

Hypothesis J_batch :
  forall sched n_iter p l w,
    schedule_of x env args = Ok sched ->
    (p_file p + 1 < num_files x)%nat ->
    0 <= p_step p < Z.of_nat (batches x (p_epoch p) (p_file p)) ->
    J l w ->
    sat (fun r w' => J (fst r) w') JE
        (train_batch x fuel args sched n_iter p l w).

Lemma train_file_sat sched n_iter epoch idx_file l w :
  schedule_of x env args = Ok sched ->
  (idx_file + 1 < num_files x)%nat ->
  J l w -> sat J JE (train_file x fuel args sched n_iter epoch idx_file l w).
Proof.
  intros Hs Hi Hl. unfold train_file.
  apply sat_bind, sat_emit. apply batch_loop_sat.
  - intros step l' w' Hstep Hl'. apply J_batch; simpl; auto; lia.
  - apply J_structural; simpl; auto.
Qed.

Lemma train_loops_sat w :
  J locals0 w -> sat J JE (train_loops x fuel env args w).
Proof.
  apply train_loops_sat_files. intros. apply train_file_sat; auto.
Qed.

End LoopInvariant.

Lemma Forall_snoc {A} (P : A -> Prop) l a :
  Forall P l -> P a -> Forall P (l ++ [a]).
Proof. intros. apply Forall_app; auto. Qed.

Lemma save_checkpoint_trace (K : list event -> Prop) x fuel args gs :
  (forall tr n, K tr -> K (tr ++ [SaveAttemptLogged n])) ->
  keeps (fun w => K (trace w)) (save_checkpoint x fuel args gs).
Proof.
  intros HK. apply keeps_save_checkpoint.
  - intros w ds fs n Hw. exact Hw.
  - intros w n Hw. simpl. apply HK, Hw.
Qed.

(** *** The weight gate and the mode *)

Lemma py_getitem_nonneg {A} (l : list A) i a :
  0 <= i -> py_getitem l i = Ok a -> nth_error l (Z.to_nat i) = Some a.
Proof.
  intros Hi. unfold py_getitem.
  destruct (i <? 0) eqn:Hneg; [apply Z.ltb_lt in Hneg; lia | ].
  destruct ((0 <=? i) && (i <? Z.of_nat (List.length l))); [ | discriminate].
  destruct (nth_error l (Z.to_nat i)); congruence.
Qed.

Lemma py_getitem_in_range {A} (l : list A) i :
  0 <= i < Z.of_nat (List.length l) -> exists a, py_getitem l i = Ok a.
Proof.
  intros Hi. unfold py_getitem.
  destruct (i <? 0) eqn:Hneg; [apply Z.ltb_lt in Hneg; lia | ].
  replace ((0 <=? i) && (i <? Z.of_nat (List.length l))) with true
    by (symmetry; apply andb_true_iff; split;
        [apply Z.leb_le | apply Z.ltb_lt]; lia).
  destruct (nth_error l (Z.to_nat i)) as [a|] eqn:Hn; [eauto | ].
  apply nth_error_None in Hn. lia.
Qed.

Lemma schedule_gate_spec args sched gs prev b :
  0 <= gs ->
  schedule_gate args sched gs prev = Ok b ->
  (use_beta_schedule args = true ->
     (gs < Z.of_nat (List.length sched) -> nth_error sched (Z.to_nat gs) = Some b) /\
     (Z.of_nat (List.length sched) <= gs -> b = F64.one)) /\
  (use_beta_schedule args = false -> b = prev).
Proof.
  intros Hgs. unfold schedule_gate.
  destruct (use_beta_schedule args); intros H; split; try discriminate.
  - intros _. destruct (Z.of_nat (List.length sched) <=? gs) eqn:Hle.
    + apply Z.leb_le in Hle. split; [lia | congruence].
    + apply Z.leb_gt in Hle. split; [ | lia].
      intros _. apply py_getitem_nonneg; auto.
  - intros _. congruence.
Qed.

(** The gate never fails on a step counter that is not negative. *)
Lemma schedule_gate_total args sched gs prev :
  0 <= gs -> exists b, schedule_gate args sched gs prev = Ok b.
Proof.
  intros Hgs. unfold schedule_gate.
  destruct (use_beta_schedule args); [ | eauto].
  destruct (Z.of_nat (List.length sched) <=? gs) eqn:Hle; [eauto | ].
  apply Z.leb_gt in Hle. apply py_getitem_in_range. lia.
Qed.

Section ForwardInvariant.
Variable x : externals.
Variable fuel : nat.
Variable env : environ.
Variable args : Args.

Let I (w : world) : Prop :=
  Forall (forward_ok args (schedule_of x env args)) (trace w).
Let J (l : locals) (w : world) : Prop :=
  0 <= global_step l /\
  (use_beta_schedule args = false -> beta_t l = F64.zero) /\
  I w.

Lemma I_quiet w e :
  forward_ok args (schedule_of x env args) e -> I w -> I (log_event w e).
Proof. intros He Hw. apply Forall_snoc; auto. Qed.

Lemma forward_optimizer_boundary p l w :
  J l w ->
  sat J (fun _ => I) (optimizer_boundary x fuel args p l w).
Proof.
  intros (Hgs & Hb & Hw). unfold optimizer_boundary.
  repeat (apply sat_bind, sat_emit).
  set (w4 := log_event _ (ZeroGrad (Some p))).
  assert (H4 : I w4) by (repeat apply I_quiet; simpl; auto).
  clearbody w4. clear Hw w.
  apply sat_bind.
  apply sat_mono with (Q := fun _ => I) (E := fun _ => I); auto.
  - destruct (_ && _ && _); [ | exact H4].
    apply sat_bind, sat_when; [intros _; apply sat_emit | intros _];
      apply sat_bind, sat_emit; simpl; repeat apply I_quiet; simpl; auto.
  - intros ll w5 H5. apply sat_bind.
    apply sat_mono with (Q := fun _ => I) (E := fun _ => I); auto.
    + apply sat_when; auto. intros _.
      apply (save_checkpoint_trace
               (Forall (forward_ok args (schedule_of x env args)))); auto.
      intros tr n Htr. apply Forall_snoc; simpl; auto.
    + intros _ w6 H6. unfold J, ret; simpl. repeat split; auto. lia.
Qed.

Lemma forward_train_batch sched n_iter p l w :
  schedule_of x env args = Ok sched -> J l w ->
  sat (fun r w' => J (fst r) w') (fun _ => I)
      (train_batch x fuel args sched n_iter p l w).
Proof.
  intros Hs (Hgs & Hb & Hw). unfold train_batch.
  apply sat_bind, sat_lift.
  destruct (schedule_gate args sched (global_step l) (beta_t l)) as [b|e] eqn:G;
    [ | exact Hw].
  apply schedule_gate_spec in G; auto. destruct G as [Gon Goff].
  apply sat_bind, sat_when; [intros _; exact Hw | intros _].
  apply sat_bind. unfold forward_call. simpl.
  generalize (loss_item x (forwards w)); intros loss.
  match goal with |- sat _ _ (_ ?w1) => set (w' := w1) end.
  assert (H1 : I w').
  { apply Forall_snoc; auto. simpl. exists sched.
    repeat split; auto; try (apply Gon; auto).
    intros Hoff. rewrite (Goff Hoff). auto. }
  clearbody w'. clear Hw.
  apply sat_bind.
  apply sat_mono with (Q := fun _ => I) (E := fun _ => I); auto.
  { apply sat_when; auto. intros _. apply sat_bind, sat_emit.
    apply sat_when; intros _; simpl; apply I_quiet; simpl; auto. }
  intros u w2 H2. apply sat_bind, sat_emit.
  apply sat_bind, sat_when; [intros _; simpl; apply I_quiet; simpl; auto | intros _].
  assert (H3 : I (log_event w2 (Backward p))) by (apply I_quiet; simpl; auto).
  apply sat_bind.
  set (l1 := {| global_step := global_step l |}).
  assert (J1 : J l1 (log_event w2 (Backward p))).
  { repeat split; simpl; auto. intros Hoff. rewrite (Goff Hoff). auto. }
  apply sat_mono with (Q := J) (E := fun _ => I); auto.
  destruct (_ =? 0); [apply forward_optimizer_boundary; auto | exact J1].
Qed.

Lemma forward_train_loops w :
  I w -> sat (fun _ => I) (fun _ => I) (train_loops x fuel env args w).
Proof.
  intros Hw.
  apply sat_mono with (Q := J) (E := fun _ => I); auto.
  - apply train_loops_sat.
    + intros l w' _ (_ & _ & H); exact H.
    + intros l w' ev Hev (H1 & H2 & H3). repeat split; auto.
      apply I_quiet; auto. destruct ev; simpl in *; auto; contradiction.
    + intros. apply forward_train_batch; auto.
    + repeat split; simpl; auto; lia.
  - intros l w' (_ & _ & H); exact H.
Qed.

End ForwardInvariant.

(** *** Invariants of the world alone *)

Lemma keeps_emit (I : world -> Prop) e :
  (forall w, I w -> I (log_event w e)) -> keeps I (emit e).
Proof. intros H w Hw. apply H, Hw. Qed.

Lemma keeps_lift (I : world -> Prop) {A} (r : result A) : keeps I (lift r).
Proof. destruct r; [apply keeps_ret | apply keeps_raise]. Qed.

Section WorldInvariant.
Variable I : world -> Prop.
Variable x : externals.
Variable fuel : nat.
Variable args : Args.

Hypothesis I_log : forall w e, batch_event e -> I w -> I (log_event w e).
Hypothesis I_forward : forall w, I w -> I (count_forward w).
Hypothesis I_save :
  in_minus1_0 (local_rank args) = true ->
  forall gs, keeps I (save_checkpoint x fuel args gs).

Lemma keeps_optimizer_boundary p l :
  keeps I (optimizer_boundary x fuel args p l).
Proof.
  unfold optimizer_boundary.
  repeat (apply keeps_bind;
          [apply keeps_emit; intros; apply I_log; simpl; auto | intros _]).
  apply keeps_bind.
  - destruct (_ && _ && _); [ | apply keeps_ret].
    apply keeps_bind; [apply keeps_when | intros _; apply keeps_bind;
                       [ | intros _; apply keeps_ret]];
      apply keeps_emit; intros; apply I_log; simpl; auto.
  - intros ll. apply keeps_bind; [ | intros _; apply keeps_ret].
    destruct (in_minus1_0 (local_rank args)) eqn:Hr; simpl.
    + apply keeps_when. apply I_save; auto.
    + apply keeps_ret.
Qed.

Lemma keeps_train_batch sched n_iter p l :
  keeps I (train_batch x fuel args sched n_iter p l).
Proof.
  unfold train_batch.
  apply keeps_bind; [apply keeps_lift | intros b].
  apply keeps_bind; [apply keeps_when, keeps_raise | intros _].
  apply keeps_bind.
  { intros w Hw. unfold forward_call. simpl.
    apply I_forward, I_log; simpl; auto. }
  intros loss.
  apply keeps_bind.
  { apply keeps_when, keeps_bind.
    - apply keeps_emit; intros; apply I_log; simpl; auto.
    - intros _. apply keeps_when, keeps_raise. }
  intros _.
  apply keeps_bind; [apply keeps_emit; intros; apply I_log; simpl; auto | intros _].
  apply keeps_bind; [apply keeps_when, keeps_raise | intros _].
  apply keeps_bind; [ | intros l2; apply keeps_ret].
  destruct (_ =? 0); [apply keeps_optimizer_boundary | apply keeps_ret].
Qed.

Lemma keeps_batch_loop sched n_iter ep i n step l :
  keeps I (batch_loop n step
             (fun step =>
                train_batch x fuel args sched n_iter
                  {| p_epoch := ep; p_file := i; p_step := step |}) l).
Proof.
  intros w Hw.
  apply (batch_loop_sat (fun _ => I) (fun _ => I)); auto.
  intros step' l' w' _ Hw'.
  eapply sat_mono; [apply keeps_train_batch, Hw' | | ]; auto.
Qed.

End WorldInvariant.

(** *** The turns of the file loop *)

Lemma file_turns_app a b : file_turns (a ++ b) = file_turns a ++ file_turns b.
Proof. apply flat_map_app. Qed.

Lemma file_turns_batch_event tr e :
  batch_event e -> file_turns (tr ++ [e]) = file_turns tr.
Proof.
  intros He. rewrite file_turns_app. destruct e; simpl in *;
    try contradiction; apply app_nil_r.
Qed.

Lemma for_each_sat_ix {X} (Q : list X -> locals -> world -> Prop) JE
    (body : X -> locals -> M locals) :
  (forall pre v l w, Q pre l w -> sat (Q (pre ++ [v])) JE (body v l w)) ->
  forall xs pre l w, Q pre l w -> sat (Q (pre ++ xs)) JE (for_each xs body l w).
Proof.
  intros Hb. induction xs as [|v tl IH]; intros pre l w Hq; simpl.
  - rewrite app_nil_r. exact Hq.
  - apply sat_bind. eapply sat_mono; [apply Hb, Hq | | auto].
    intros l' w' Hq'. specialize (IH (pre ++ [v]) l' w' Hq').
    rewrite <- app_assoc in IH. exact IH.
Qed.

Section FileTurns.
Variable x : externals.
Variable fuel : nat.
Variable args : Args.
Variable sched : list F64.t.
Variable n_iter : Z.

Let anything : exn -> world -> Prop := fun _ _ => True.

Lemma train_file_turns ep i l w :
  sat (fun _ w' => file_turns (trace w') = file_turns (trace w) ++ [(ep, i)])
      anything (train_file x fuel args sched n_iter ep i l w).
Proof.
  unfold train_file. apply sat_bind, sat_emit.
  set (T := file_turns (trace w) ++ [(ep, i)]).
  eapply sat_mono with (Q := fun _ w' => file_turns (trace w') = T);
    [ | auto | unfold anything; auto].
  apply (keeps_batch_loop (fun w' => file_turns (trace w') = T)).
  - intros w' e He Hw'. simpl. rewrite file_turns_batch_event; auto.
  - auto.
  - intros _ gs.
    apply (save_checkpoint_trace (fun tr => file_turns tr = T)).
    intros tr n Htr. rewrite file_turns_batch_event; simpl; auto.
  - unfold T. simpl. rewrite file_turns_app. reflexivity.
Qed.

Lemma train_epoch_turns ep l w :
  sat (fun _ w' =>
         file_turns (trace w') =
         file_turns (trace w) ++ map (pair ep) (seq 0 (num_files x - 1)))
      anything (train_epoch x fuel args sched n_iter ep l w).
Proof.
  unfold train_epoch. apply sat_bind, sat_emit.
  apply (for_each_sat_ix
           (fun pre _ w' =>
              file_turns (trace w') = file_turns (trace w) ++ map (pair ep) pre)
           anything) with (pre := []).
  - intros pre i l' w' Hw'.
    eapply sat_mono; [apply train_file_turns | | auto].
    intros u w2 H2. simpl in H2. rewrite H2, Hw', map_app, app_assoc.
    reflexivity.
  - simpl. rewrite file_turns_app. simpl. reflexivity.
Qed.

Lemma epochs_turns n l w :
  sat (fun _ w' =>
         file_turns (trace w') =
         file_turns (trace w) ++ all_file_turns n (num_files x))
      anything
      (for_each (seq 0 n) (train_epoch x fuel args sched n_iter) l w).
Proof.
  unfold all_file_turns.
  apply (for_each_sat_ix
           (fun pre _ w' =>
              file_turns (trace w') =
              file_turns (trace w) ++
              flat_map (fun ep => map (pair ep) (seq 0 (num_files x - 1))) pre)
           anything) with (pre := []).
  - intros pre ep l' w' Hw'.
    eapply sat_mono; [apply train_epoch_turns | | auto].
    intros u w2 H2. simpl in H2.
    rewrite H2, Hw', flat_map_app, <- app_assoc. simpl.
    rewrite app_nil_r. reflexivity.
  - simpl. rewrite app_nil_r. reflexivity.
Qed.

End FileTurns.

Lemma train_loops_turns x fuel env args w l w' :
  train_loops x fuel env args w = Done l w' ->
  exists plan n,
    plan_epochs env x args = Ok plan /\ py_int (fst plan) = Ok n /\
    file_turns (trace w') =
    file_turns (trace w) ++ all_file_turns (Z.to_nat n) (num_files x).
Proof.
  unfold train_loops, bind at 1.
  assert (Hrest : forall w0, file_turns (trace w0) = file_turns (trace w) ->
    (plan <- lift (plan_epochs env x args);;
     emit (ZeroGrad None);;;
     n_epochs <- lift (py_int (fst plan));;
     n_iter <- lift (estimate_n_iter x args (fst plan));;
     for_each (seq 0 (Z.to_nat n_epochs))
       (train_epoch x fuel args
          (frange_cycle_zero_linear x n_iter F64.zero (beta args) 10
             (ratio_increase args) (ratio_zero args)) n_iter)
       locals0) w0 = Done l w' ->
    exists plan n,
      plan_epochs env x args = Ok plan /\ py_int (fst plan) = Ok n /\
      file_turns (trace w') =
      file_turns (trace w) ++ all_file_turns (Z.to_nat n) (num_files x)).
  { intros w0 H0. unfold bind at 1.
    destruct (plan_epochs env x args) as [plan|e] eqn:Hplan;
      cbn [lift ret raise]; [ | discriminate].
    unfold bind at 1. cbn [emit]. unfold bind at 1.
    destruct (py_int (fst plan)) as [n|e] eqn:Hn; cbn [lift ret raise];
      [ | discriminate].
    unfold bind at 1.
    destruct (estimate_n_iter x args (fst plan)) as [n_iter|e];
      cbn [lift ret raise]; [ | discriminate].
    intros Hrun. exists plan, n. repeat split; auto.
    pose proof (epochs_turns x fuel args
                  (frange_cycle_zero_linear x n_iter F64.zero (beta args) 10
                     (ratio_increase args) (ratio_zero args))
                  n_iter (Z.to_nat n) locals0
                  (log_event w0 (ZeroGrad None))) as Ht.
    rewrite Hrun in Ht. cbn [sat] in Ht. rewrite Ht. cbn [log_event trace].
    rewrite file_turns_app, H0. cbn [file_turns flat_map].
    rewrite !app_nil_r. reflexivity. }
  destruct (in_minus1_0 (local_rank args)); cbn [when emit ret];
    apply Hrest; auto.
  cbn [log_event trace]. rewrite file_turns_app. apply app_nil_r.
Qed.

(** *** Optimizer work and accumulation boundaries *)

Lemma count_snoc f tr e : count f (tr ++ [e]) = count f tr + b2z (f e).
Proof.
  unfold count. rewrite filter_app, length_app. simpl.
  destruct (f e); simpl; lia.
Qed.

Lemma tally_snoc args tr e :
  tally args (tr ++ [e]) =
  let '(a, b, c, d, g) := tally args tr in
  (a + b2z (is_boundary_forward args e), b + b2z (is_clip e),
   c + b2z (is_optimizer_step e), d + b2z (is_scheduler_step e),
   g + b2z (is_loop_zero_grad e)).
Proof. unfold tally. rewrite !count_snoc. reflexivity. Qed.

Section StepInvariant.
Variable x : externals.
Variable fuel : nat.
Variable args : Args.

Let ok_log (w : world) : Prop := Forall (loop_event_ok x args) (trace w).
Let K (c : Z * Z * Z * Z * Z) (w : world) : Prop :=
  ok_log w /\ tally args (trace w) = c.
Let J (l : locals) (w : world) : Prop :=
  K (global_step l, global_step l, global_step l, global_step l,
     global_step l) w.

(** Events that neither count nor are restricted. *)
Let quiet (e : event) : Prop :=
  match e with
  | Forward p _ _ _ => boundary args p = false
  | LogProgress _ _ | Backward _ | Evaluate _ | TbScalars _
  | SaveAttemptLogged _ | TbWriterOpen | LoaderReset _ | ZeroGrad None => True
  | FileBegin _ i => (i + 1 < num_files x)%nat
  | _ => False
  end.

Lemma K_quiet c w e : quiet e -> K c w -> K c (log_event w e).
Proof.
  intros He (Hok & Ht). split.
  - apply Forall_snoc; auto.
    destruct e as [| | | | | | | | |[p|]| | |]; simpl in *; auto;
      contradiction.
  - simpl. rewrite tally_snoc, Ht. destruct c as [[[[a b] c] d] g].
    destruct e as [| | | p ? ? ?| | | | | |[p|]| | |]; simpl in *;
      try contradiction; try rewrite He; simpl;
      rewrite ?Z.add_0_r; reflexivity.
Qed.

Lemma keeps_K_save c gs : keeps (K c) (save_checkpoint x fuel args gs).
Proof.
  apply keeps_save_checkpoint.
  - intros w ds fs n Hw. exact Hw.
  - intros w n Hw. apply K_quiet; simpl; auto.
Qed.

Lemma step_optimizer_boundary p l w a :
  boundary args p = true ->
  K (a + 1, a, a, a, a) w ->
  global_step l = a ->
  sat J (fun _ => ok_log) (optimizer_boundary x fuel args p l w).
Proof.
  intros Hp (Hok & Ht) Hgs. unfold optimizer_boundary.
  repeat (apply sat_bind, sat_emit).
  set (w4 := log_event _ (ZeroGrad (Some p))).
  assert (H4 : K (a + 1, a + 1, a + 1, a + 1, a + 1) w4).
  { split.
    - unfold w4. repeat (apply Forall_snoc; simpl; auto).
    - unfold w4. simpl. rewrite !tally_snoc, Ht. simpl.
      rewrite ?Z.add_0_r. reflexivity. }
  clearbody w4. clear Ht Hok w.
  set (c := (a + 1, a + 1, a + 1, a + 1, a + 1)) in *.
  apply sat_bind.
  apply sat_mono with (Q := fun _ => K c) (E := fun _ => K c);
    [ | | intros e w' Hw'; apply Hw'].
  - destruct (_ && _ && _); [ | exact H4].
    apply sat_bind, sat_when; [intros _; apply sat_emit | intros _];
      apply sat_bind, sat_emit; simpl; repeat apply K_quiet; simpl; auto.
  - intros ll w5 H5. apply sat_bind.
    apply sat_mono with (Q := fun _ => K c) (E := fun _ => K c);
      [ | | intros e w' Hw'; apply Hw'].
    + apply sat_when; auto. intros _. apply keeps_K_save, H5.
    + intros u w6 H6. unfold J, ret; simpl. rewrite Hgs. exact H6.
Qed.

Lemma step_train_batch sched n_iter p l w :
  J l w ->
  sat (fun r w' => J (fst r) w') (fun _ => ok_log)
      (train_batch x fuel args sched n_iter p l w).
Proof.
  intros Hj. unfold train_batch.
  apply sat_bind, sat_lift.
  destruct (schedule_gate args sched (global_step l) (beta_t l)) as [b|e];
    [ | apply Hj].
  apply sat_bind, sat_when; [intros _; apply Hj | intros _].
  apply sat_bind. unfold forward_call. cbn [sat].
  generalize (loss_item x (forwards w)); intros loss.
  set (a := global_step l) in *.
  set (c := (a + b2z (boundary args p), a, a, a, a)).
  match goal with |- sat _ _ (_ ?w1) => set (w1' := w1) end.
  assert (H1 : K c w1').
  { destruct Hj as (Hok & Ht). split.
    - unfold w1'. simpl. apply Forall_snoc; simpl; auto.
    - unfold w1'. simpl. rewrite tally_snoc, Ht. simpl.
      rewrite ?Z.add_0_r. reflexivity. }
  clearbody w1'. clear Hj.
  apply sat_bind.
  apply sat_mono with (Q := fun _ => K c) (E := fun _ => K c);
    [ | | intros e w' Hw'; apply Hw'].
  { apply sat_when; auto. intros _. apply sat_bind, sat_emit.
    apply sat_when; intros _; simpl; apply K_quiet; simpl; auto. }
  intros u w2 H2. apply sat_bind, sat_emit.
  assert (H3 : K c (log_event w2 (Backward p))) by (apply K_quiet; simpl; auto).
  apply sat_bind, sat_when; [intros _; apply H3 | intros _].
  apply sat_bind.
  apply sat_mono with (Q := J) (E := fun _ => ok_log); auto.
  fold (boundary args p). unfold c in H3.
  destruct (boundary args p) eqn:Hp.
  - apply step_optimizer_boundary with (a := a); auto.
  - simpl in H3. rewrite Z.add_0_r in H3. exact H3.
Qed.

Lemma step_train_loops env w :
  J locals0 w -> sat J (fun _ => ok_log) (train_loops x fuel env args w).
Proof.
  intros Hw. apply train_loops_sat; auto.
  - intros l w' _ H; apply H.
  - intros l w' ev Hev H. apply K_quiet; auto.
    destruct ev as [| | | | | | | | |[?|]| | |]; simpl in *; auto;
      contradiction.
  - intros. apply step_train_batch; auto.
Qed.

End StepInvariant.

(** * The topology resolver *)

Lemma gpu_indices_asserts env divisible :
  ~ (0 <= ompi_local_rank env < ompi_local_size env) \/
  gpu_count env < ompi_local_size env ->
  gpu_indices env divisible = Raise AssertionError.
Proof.
  intros H. unfold gpu_indices.
  destruct ((0 <=? ompi_local_rank env)
            && (ompi_local_rank env <? ompi_local_size env)) eqn:H1;
    simpl; [ | reflexivity].
  apply andb_true_iff in H1. destruct H1 as [Ha Hb].
  apply Z.leb_le in Ha. apply Z.ltb_lt in Hb.
  destruct ((ompi_local_size env <=? gpu_count env)
            && (0 <? ompi_local_size env)) eqn:H2;
    simpl; [ | reflexivity].
  apply andb_true_iff in H2. destruct H2 as [Hc Hd].
  apply Z.leb_le in Hc. lia.
Qed.

(** C7. Topology resolution fails with an assertion error whenever the
    local rank is outside [0, local_size) or there are fewer GPUs than
    local processes, and [main] then stops before any training work:
    it fails in the world it started in, with that assertion error
    unless a start-up check already failed. *)
Theorem topology_precondition_failure (env : environ) (divisible : bool) :
  ~ (0 <= ompi_local_rank env < ompi_local_size env) \/
  gpu_count env < ompi_local_size env ->
  gpu_indices env divisible = Raise AssertionError /\
  forall x fuel s args w,
    exists e, main x fuel env s args w = Fail e w /\
              (startup_ok s = true -> e = AssertionError).
Proof.
  intros H. split; [apply gpu_indices_asserts, H | ].
  intros x fuel s args w. unfold main, startup_ok, bind.
  destruct (decoder_is_bert_or_roberta s && negb (mlm s)); simpl.
  { exists ValueError. split; [reflexivity | discriminate]. }
  destruct (negb (eval_data_file_given s) && do_eval s); simpl.
  { exists ValueError. split; [reflexivity | discriminate]. }
  destruct (output_dir_populated s && do_train s
            && negb (overwrite_output_dir s)); simpl.
  { exists ValueError. split; [reflexivity | discriminate]. }
  rewrite (gpu_indices_asserts env true H). simpl.
  exists AssertionError. split; reflexivity.
Qed.

Lemma topology_precondition_failure_witness :
  (~ (0 <= ompi_local_rank (host 2 2 8) < ompi_local_size (host 2 2 8)) \/
   gpu_count (host 2 2 8) < ompi_local_size (host 2 2 8)) /\
  gpu_indices (host 2 2 8) true = Raise AssertionError.
Proof.
  assert (H : ~ (0 <= ompi_local_rank (host 2 2 8) < ompi_local_size (host 2 2 8)) \/
              gpu_count (host 2 2 8) < ompi_local_size (host 2 2 8))
    by (left; simpl; lia).
  split; [exact H | ].
  exact (proj1 (topology_precondition_failure (host 2 2 8) true H)).
Defined.

(** C3. With 8 GPUs and 3 local processes the partition that asks for
    equal shares hands three devices to every rank, not
    [floor(8/3) = 2], and device 2 to both rank 0 and rank 1: the
    share [8 / 3] is a float and [np.arange] rounds the length up. *)
Theorem gpu_indices_8_gpus_3_ranks :
  gpu_indices (host 3 0 8) true = Ok [0; 1; 2] /\
  gpu_indices (host 3 1 8) true = Ok [2; 3; 4] /\
  gpu_indices (host 3 2 8) true = Ok [5; 6; 7] /\
  8 / 3 = 2.
Proof. repeat split; vm_compute; reflexivity. Qed.

(** * The training loop *)

Lemma train_final_world x fuel env args w w' :
  final_world (train x fuel env args w) = Some w' ->
  final_world (train_loops x fuel env args w) = Some w'.
Proof.
  unfold train, bind.
  destruct (train_loops x fuel env args w) as [l w1|e w1|]; simpl; auto.
  unfold train_return. destruct (global_step l =? 0); simpl; auto.
Qed.

Lemma sat_final {A} (I : world -> Prop) (o : outcome A) w' :
  sat (fun _ => I) (fun _ => I) o -> final_world o = Some w' -> I w'.
Proof. destruct o; simpl; intros H Hw; inversion Hw; subst; auto. Qed.

(** Every forward call of a run got its step counter, weight and mode
    from lines 534-554. *)
Lemma train_forward_events x fuel env args w w' :
  trace w = [] ->
  final_world (train x fuel env args w) = Some w' ->
  Forall (forward_ok args (schedule_of x env args)) (trace w').
Proof.
  intros Hw Hrun. apply train_final_world in Hrun.
  apply (sat_final
           (fun w0 => Forall (forward_ok args (schedule_of x env args)) (trace w0))
           (train_loops x fuel env args w) w'); [ | exact Hrun].
  apply forward_train_loops. rewrite Hw. constructor.
Qed.

Lemma train_forward_event x fuel env args w w' p gs b m :
  trace w = [] ->
  final_world (train x fuel env args w) = Some w' ->
  In (Forward p gs b m) (trace w') ->
  forward_ok args (schedule_of x env args) (Forward p gs b m).
Proof.
  intros Hw Hrun Hin.
  pose proof (train_forward_events x fuel env args w w' Hw Hrun) as Hall.
  rewrite Forall_forall in Hall. apply Hall, Hin.
Qed.

Lemma F64_positive_not_zero b :
  F64.ltb F64.zero b = true -> F64.eqb b F64.zero = false.
Proof.
  unfold F64.ltb, F64.eqb, F64.zero, SFltb, SFeqb.
  destruct b as [s|s| |s m e]; simpl; try discriminate;
    destruct s; simpl; auto; discriminate.
Qed.

Lemma fb_mode_of_cases args b :
  (use_deterministic_connect args = true -> fb_mode_of args b = 2) /\
  (use_deterministic_connect args = false ->
     F64.eqb b F64.zero = true -> fb_mode_of args b = 0) /\
  (use_deterministic_connect args = false ->
     F64.ltb F64.zero b = true -> fb_mode_of args b = 1).
Proof.
  unfold fb_mode_of. repeat split.
  - intros ->. reflexivity.
  - intros -> ->. reflexivity.
  - intros -> Hpos. rewrite (F64_positive_not_zero b Hpos). reflexivity.
Qed.

(** C6. The mode pushed to the model before a forward call is a
    function of the weight pushed with it and of the deterministic
    flag: with the flag it is 2 whatever the weight; without it, 0
    for a weight equal to zero and 1 for a weight above zero. *)
Theorem mode_derived_from_weight x fuel env args w w' p gs b m :
  trace w = [] ->
  final_world (train x fuel env args w) = Some w' ->
  In (Forward p gs b m) (trace w') ->
  m = fb_mode_of args b /\
  (use_deterministic_connect args = true -> m = 2) /\
  (use_deterministic_connect args = false ->
     F64.eqb b F64.zero = true -> m = 0) /\
  (use_deterministic_connect args = false ->
     F64.ltb F64.zero b = true -> m = 1).
Proof.
  intros Hw Hrun Hin.
  destruct (train_forward_event _ _ _ _ _ _ _ _ _ _ Hw Hrun Hin)
    as (sched & _ & _ & _ & _ & Hm).
  split; [exact Hm | ]. rewrite Hm. apply fb_mode_of_cases.
Qed.

(** C2, as the code has it. With the schedule switched on, the weight
    of a forward call at step [gs] is entry [gs] of the schedule that
    [train] built while [gs] is below its length, and the constant 1.0
    from then on; the gate raises no error at any such step. *)
Theorem weight_follows_schedule_then_one x fuel env args w w' p gs b m :
  use_beta_schedule args = true ->
  trace w = [] ->
  final_world (train x fuel env args w) = Some w' ->
  In (Forward p gs b m) (trace w') ->
  exists sched,
    schedule_of x env args = Ok sched /\
    0 <= gs /\
    (gs < Z.of_nat (List.length sched) ->
       nth_error sched (Z.to_nat gs) = Some b) /\
    (Z.of_nat (List.length sched) <= gs -> b = F64.one) /\
    (forall step prev, 0 <= step ->
       exists b', schedule_gate args sched step prev = Ok b').
Proof.
  intros Hon Hw Hrun Hin.
  destruct (train_forward_event _ _ _ _ _ _ _ _ _ _ Hw Hrun Hin)
    as (sched & Hs & Hgs & Hsched & _ & _).
  exists sched. destruct (Hsched Hon). repeat split; auto.
  intros step prev Hstep. apply schedule_gate_total, Hstep.
Qed.

(** C9. With the schedule switched off every forward call is given
    the weight 0.0 and the mode 0, or 2 under the deterministic flag;
    the gate returns the weight it was handed whatever the schedule
    holds. *)
Theorem no_schedule_zero_weight x fuel env args w w' p gs b m :
  use_beta_schedule args = false ->
  trace w = [] ->
  final_world (train x fuel env args w) = Some w' ->
  In (Forward p gs b m) (trace w') ->
  b = F64.zero /\
  m = (if use_deterministic_connect args then 2 else 0) /\
  forall sched sched' step prev,
    schedule_gate args sched step prev = Ok prev /\
    schedule_gate args sched' step prev = Ok prev.
Proof.
  intros Hoff Hw Hrun Hin.
  destruct (train_forward_event _ _ _ _ _ _ _ _ _ _ Hw Hrun Hin)
    as (sched & _ & _ & _ & Hb & Hm).
  specialize (Hb Hoff). subst b. split; [reflexivity | ].
  split.
  - rewrite Hm. unfold fb_mode_of.
    destruct (use_deterministic_connect args); reflexivity.
  - intros. unfold schedule_gate. rewrite Hoff. split; reflexivity.
Qed.

Lemma train_done_inv x fuel env args w gs avg w' :
  train x fuel env args w = Done (gs, avg) w' ->
  exists l, train_loops x fuel env args w = Done l w' /\
            global_step l = gs /\ gs <> 0.
Proof.
  unfold train, bind.
  destruct (train_loops x fuel env args w) as [l w1|e w1|]; try discriminate.
  unfold train_return. destruct (global_step l =? 0) eqn:Hz; simpl;
    [discriminate | ].
  intros H. inversion H; subst. exists l. apply Z.eqb_neq in Hz. auto.
Qed.

Lemma train_loops_steps x fuel env args w :
  trace w = [] ->
  sat (fun l w' =>
         Forall (loop_event_ok x args) (trace w') /\
         tally args (trace w') =
         (global_step l, global_step l, global_step l, global_step l,
          global_step l))
      (fun _ w' => Forall (loop_event_ok x args) (trace w'))
      (train_loops x fuel env args w).
Proof.
  intros Hw. apply step_train_loops. split; rewrite Hw; [constructor | ].
  reflexivity.
Qed.

(** C5, as the code has it. In every run the file loop only takes
    turns [i] with [i + 1 < num_files], and gradient clipping, the
    optimizer step, the scheduler step and gradient zeroing only
    happen on batches whose index in the current file satisfies
    [(step + 1) % gas == 0]; a run that returns has taken the turns
    [0 .. num_files - 2] in each of its epochs, and returns a
    [global_step] equal to the number of such boundary batches it
    consumed and to the number of clippings, optimizer steps,
    scheduler steps and zeroings it made. *)
Theorem file_turns_and_accumulation x fuel env args w :
  trace w = [] ->
  (forall w', final_world (train x fuel env args w) = Some w' ->
     Forall (loop_event_ok x args) (trace w')) /\
  (forall gs avg w', train x fuel env args w = Done (gs, avg) w' ->
     (exists plan n,
        plan_epochs env x args = Ok plan /\ py_int (fst plan) = Ok n /\
        file_turns (trace w') = all_file_turns (Z.to_nat n) (num_files x)) /\
     count (is_boundary_forward args) (trace w') = gs /\
     count is_clip (trace w') = gs /\
     count is_optimizer_step (trace w') = gs /\
     count is_scheduler_step (trace w') = gs /\
     count is_loop_zero_grad (trace w') = gs).
Proof.
  intros Hw. pose proof (train_loops_steps x fuel env args w Hw) as Hsat.
  split.
  - intros w' Hrun. apply train_final_world in Hrun.
    apply (sat_final (fun w0 => Forall (loop_event_ok x args) (trace w0))
                     (train_loops x fuel env args w) w'); [ | exact Hrun].
    eapply sat_mono; [exact Hsat | | auto]. intros l w0 [H _]; exact H.
  - intros gs avg w' Hrun.
    destruct (train_done_inv _ _ _ _ _ _ _ _ Hrun) as (l & Hloops & Hgs & _).
    split.
    + destruct (train_loops_turns _ _ _ _ _ _ _ Hloops)
        as (plan & n & Hplan & Hn & Ht).
      exists plan, n. rewrite Ht, Hw. auto.
    + rewrite Hloops in Hsat. simpl in Hsat. destruct Hsat as [_ Ht].
      rewrite Hgs in Ht. unfold tally in Ht. inversion Ht. auto.
Qed.

(** * Who writes *)

Lemma keeps_train_loops (I : world -> Prop) x fuel env args :
  (forall w e, I w -> I (log_event w e)) ->
  (forall w, I w -> I (count_forward w)) ->
  (in_minus1_0 (local_rank args) = true ->
   forall gs, keeps I (save_checkpoint x fuel args gs)) ->
  keeps I (train_loops x fuel env args).
Proof.
  intros Hlog Hfwd Hsave w Hw.
  apply (train_loops_sat (fun _ => I) (fun _ => I)); auto.
  intros sched n_iter p l w0 _ _ _ Hw0.
  eapply sat_mono; [apply keeps_train_batch; eauto | | ]; auto.
Qed.

Lemma train_keeps_file_system x fuel env args w w' :
  in_minus1_0 (local_rank args) = false ->
  final_world (train x fuel env args w) = Some w' ->
  file_system w' = file_system w.
Proof.
  intros Hr Hrun. apply train_final_world in Hrun.
  apply (sat_final (fun w0 => file_system w0 = file_system w)
                   (train_loops x fuel env args w) w'); [ | exact Hrun].
  apply keeps_train_loops; auto.
  rewrite Hr. discriminate.
Qed.

Lemma ensure_dir_off_coordinator args d w :
  in_minus1_0 (local_rank args) = false -> ensure_dir args d w = Done tt w.
Proof.
  intros Hr. unfold ensure_dir, bind, path_exists. rewrite Hr.
  rewrite andb_false_r. reflexivity.
Qed.

Lemma save_checkpoint_keeps_dirs x fuel args gs w w' :
  in_minus1_0 (local_rank args) = false ->
  final_world (save_checkpoint x fuel args gs w) = Some w' ->
  fs_dirs w' = fs_dirs w.
Proof.
  intros Hr Hrun.
  apply (sat_final (fun w0 => fs_dirs w0 = fs_dirs w)
                   (save_checkpoint x fuel args gs w) w'); [ | exact Hrun].
  assert (Hsw : forall f, keeps (fun w0 => fs_dirs w0 = fs_dirs w)
                            (storage_write x f)).
  { intros f w0 Hw0. unfold storage_write.
    destruct (faulty x (fs_writes w0)); exact Hw0. }
  assert (Hat : forall philly k n, keeps (fun w0 => fs_dirs w0 = fs_dirs w)
                                     (attempt x philly k gs n)).
  { intros philly k n. unfold attempt, save_pretrained, torch_save.
    destruct k; repeat (apply keeps_bind; [ | intros _]); auto.
    apply keeps_when. intros w0 Hw0. exact Hw0. }
  assert (Har : forall k, keeps (fun w0 => fs_dirs w0 = fs_dirs w)
                            (save_artifact x fuel (use_philly args) k gs)).
  { intros k. unfold save_artifact.
    destruct (use_philly args).
    - apply keeps_while_not_solid. intros n. apply Hat.
    - apply keeps_bind; [apply Hat | intros _; apply keeps_ret]. }
  assert (Hed : forall d, keeps (fun w0 => fs_dirs w0 = fs_dirs w)
                            (ensure_dir args d)).
  { intros d w0 Hw0. rewrite ensure_dir_off_coordinator; auto. }
  assert (Hall : keeps (fun w0 => fs_dirs w0 = fs_dirs w)
                       (save_checkpoint x fuel args gs)).
  { unfold save_checkpoint.
    repeat (apply keeps_bind; [ | intros _]); auto using keeps_ret. }
  apply Hall. reflexivity.
Qed.

(** C8. On a rank other than 0 and -1, [train] leaves the file system
    as it found it: no directory is created, no file is written and
    no write is attempted; [save_checkpoint] creates no directory
    there; and [main], whose [args.local_rank] is the OMPI world rank,
    leaves the file system alone as well when the process group
    reports that same rank. *)
Theorem coordinator_only_writes x fuel env args :
  in_minus1_0 (local_rank args) = false ->
  (forall w w', final_world (train x fuel env args w) = Some w' ->
     file_system w' = file_system w) /\
  (forall gs w w', final_world (save_checkpoint x fuel args gs w) = Some w' ->
     fs_dirs w' = fs_dirs w) /\
  (forall s w w',
     ompi_rank env = local_rank args -> dist_rank x = local_rank args ->
     final_world (main x fuel env s args w) = Some w' ->
     file_system w' = file_system w).
Proof.
  intros Hr. split; [ | split].
  - intros w w'. apply train_keeps_file_system, Hr.
  - intros gs w w'. apply save_checkpoint_keeps_dirs, Hr.
  - intros s w w' Henv Hdist.
    assert (Hargs : with_local_rank args (ompi_rank env) = args)
      by (rewrite Henv; destruct args; reflexivity).
    assert (Hguard : (local_rank args =? -1) || (dist_rank x =? 0) = false).
    { rewrite Hdist. exact Hr. }
    unfold main, bind. rewrite Hargs.
    repeat match goal with
           | |- context [when ?b (raise ?e) w] =>
               destruct b; simpl; [intros H; inversion H; reflexivity | ]
           end.
    destruct (gpu_indices env true) as [gpus|e]; simpl;
      [ | intros H; inversion H; reflexivity].
    destruct (py_getitem gpus 0) as [g|e]; simpl;
      [ | intros H; inversion H; reflexivity].
    rewrite Hguard, andb_false_r.
    destruct (do_train s); simpl.
    + destruct (train x fuel env args w) as [[gs avg] w1|e w1|] eqn:Ht;
        simpl; intros H; inversion H; subst;
        apply (train_keeps_file_system x fuel env args w w'); auto;
        rewrite Ht; reflexivity.
    + intros H; inversion H; reflexivity.
Qed.

(** * Returning without an optimizer step *)

Lemma train_without_step x fuel env args w l w' :
  trace w = [] ->
  train_loops x fuel env args w = Done l w' ->
  count is_optimizer_step (trace w') = 0 ->
  train x fuel env args w = Fail ZeroDivisionError w'.
Proof.
  intros Hw Hloops Hcount.
  pose proof (train_loops_steps x fuel env args w Hw) as Hsat.
  rewrite Hloops in Hsat. simpl in Hsat. destruct Hsat as [_ Ht].
  unfold tally in Ht.
  assert (Hopt : count is_optimizer_step (trace w') = global_step l)
    by (inversion Ht; auto).
  unfold train, bind. rewrite Hloops. unfold train_return.
  rewrite <- Hopt, Hcount. reflexivity.
Qed.

Lemma train_epoch_without_files x fuel args sched n_iter ep l w :
  (num_files x <= 1)%nat ->
  train_epoch x fuel args sched n_iter ep l w
  = Done l (log_event w (LoaderReset ep)).
Proof.
  intros Hnf. unfold train_epoch.
  replace (num_files x - 1)%nat with 0%nat by lia. reflexivity.
Qed.

Lemma epochs_without_files x fuel args sched n_iter :
  (num_files x <= 1)%nat ->
  forall es l w,
    exists w', for_each es (train_epoch x fuel args sched n_iter) l w
               = Done l w'.
Proof.
  intros Hnf. induction es as [|ep es IH]; intros l w; cbn [for_each].
  - exists w. reflexivity.
  - unfold bind. rewrite train_epoch_without_files by exact Hnf. apply IH.
Qed.

Lemma train_loops_without_files x fuel env args w plan n n_iter :
  (num_files x <= 1)%nat ->
  plan_epochs env x args = Ok plan ->
  py_int (fst plan) = Ok n ->
  estimate_n_iter x args (fst plan) = Ok n_iter ->
  exists w', train_loops x fuel env args w = Done locals0 w'.
Proof.
  intros Hnf Hplan Hn Hiter. unfold train_loops, bind.
  rewrite Hplan. cbn [lift ret raise emit fst].
  rewrite Hn, Hiter. cbn [lift ret raise].
  destruct (in_minus1_0 (local_rank args)); cbn [when emit ret];
    apply epochs_without_files; auto.
Qed.

Lemma batch_loop_sat_ix (Jx : Z -> locals -> world -> Prop)
    (JE : exn -> world -> Prop) body n :
  forall step0 l w,
  (forall step l w, step0 <= step -> Jx step l w ->
     sat (fun r w' => Jx (step + 1) (fst r) w') JE (body step l w)) ->
  Jx step0 l w ->
  sat (fun l w' => exists s, Jx s l w') JE (batch_loop n step0 body l w).
Proof.
  induction n as [|n IH]; intros step0 l w Hb Hl; simpl.
  - exists step0. exact Hl.
  - apply sat_bind. eapply sat_mono; [apply Hb; [lia | exact Hl] | | auto].
    intros [l' brk] w' Hl'; simpl in *.
    destruct brk; [exists (step0 + 1); exact Hl' | apply IH; auto].
    intros step l2 w2 Hstep. apply Hb. lia.
Qed.

Lemma boundary_needs_enough_batches args p :
  0 <= p_step p ->
  gradient_accumulation_steps args <> 0 ->
  boundary args p = true ->
  gradient_accumulation_steps args <= p_step p + 1.
Proof.
  unfold boundary. intros Hp Hg Hb. apply Z.eqb_eq in Hb.
  destruct (Z_lt_le_dec (gradient_accumulation_steps args) 0) as [Hneg|Hpos];
    [lia | ].
  pose proof (Z.div_mod (p_step p + 1) (gradient_accumulation_steps args) Hg)
    as Hdm.
  rewrite Hb, Z.add_0_r in Hdm.
  set (g := gradient_accumulation_steps args) in *.
  set (q := (p_step p + 1) / g) in *.
  assert (Hq : 1 <= q) by nia.
  rewrite Hdm. nia.
Qed.

Section ConsumedBatches.
Variable x : externals.
Variable fuel : nat.
Variable args : Args.

Let K (c : Z) (w : world) : Prop := c <= count is_forward (trace w).
Let J (l : locals) (w : world) : Prop :=
  global_step l = 0 \/ K (gradient_accumulation_steps args) w.

Lemma K_log c w e : K c w -> K c (log_event w e).
Proof.
  unfold K. simpl. rewrite count_snoc. destruct (is_forward e); simpl; lia.
Qed.

Lemma consumed_train_batch sched n_iter p l w :
  0 <= p_step p ->
  J l w -> K (p_step p) w ->
  sat (fun r w' => J (fst r) w' /\ K (p_step p + 1) w') (fun _ _ => True)
      (train_batch x fuel args sched n_iter p l w).
Proof.
  intros Hp Hj Hk. unfold train_batch.
  apply sat_bind, sat_lift.
  destruct (schedule_gate args sched (global_step l) (beta_t l)) as [b|e];
    [ | exact Logic.I].
  apply sat_bind, sat_when; [intros _; exact Logic.I | intros _].
  apply sat_bind. unfold forward_call. cbn [sat].
  generalize (loss_item x (forwards w)); intros loss.
  match goal with |- sat _ _ (_ ?w1) => set (w1' := w1) end.
  set (Both := fun w0 : world =>
                 K (p_step p + 1) w0 /\
                 (K (gradient_accumulation_steps args) w ->
                  K (gradient_accumulation_steps args) w0)).
  assert (Both_log : forall w0 e, Both w0 -> Both (log_event w0 e)).
  { intros w0 e [Ha Hb]. split; [apply K_log, Ha | ].
    intros Hw. apply K_log, Hb, Hw. }
  assert (H1 : Both w1').
  { unfold Both, w1', K in *; simpl. rewrite count_snoc. simpl.
    split; lia. }
  clearbody w1'.
  apply sat_bind.
  apply sat_mono with (Q := fun _ => Both) (E := fun _ _ => True); auto.
  { apply sat_when; auto. intros _. apply sat_bind, sat_emit.
    apply sat_when; intros _; simpl; auto. }
  intros u w2 H2. apply sat_bind, sat_emit.
  assert (H3 : Both (log_event w2 (Backward p))) by (apply Both_log, H2).
  apply sat_bind.
  destruct (gradient_accumulation_steps args =? 0) eqn:Hgas;
    [exact Logic.I | cbn [when ret sat]].
  apply Z.eqb_neq in Hgas.
  fold (boundary args p). destruct (boundary args p) eqn:Hb.
  - apply sat_bind.
    assert (Hkeep : keeps Both
              (optimizer_boundary x fuel args p
                 {| global_step := global_step l;
                    tr_loss := F64.add (tr_loss l) loss;
                    logging_loss := logging_loss l; beta_t := b |})).
    { apply keeps_optimizer_boundary.
      - intros w0 e _. apply Both_log.
      - intros _ gs. apply keeps_save_checkpoint.
        + intros w0 ds fs n Hw0. exact Hw0.
        + intros w0 n. apply Both_log. }
    specialize (Hkeep _ H3).
    destruct (optimizer_boundary x fuel args p _ _) as [l2 w3|e w3|];
      simpl in *; auto.
    destruct Hkeep as [Hk1 _]. split; [ | exact Hk1].
    right. unfold K in *.
    pose proof (boundary_needs_enough_batches args p Hp Hgas Hb). lia.
  - cbn [ret bind sat fst]. destruct H3 as [Hk1 Hmono]. split; [ | exact Hk1].
    destruct Hj as [Hz | Hge]; [left; exact Hz | right; apply Hmono, Hge].
Qed.

Lemma consumed_train_loops env w :
  sat J (fun _ _ => True) (train_loops x fuel env args w).
Proof.
  apply train_loops_sat_files.
  - auto.
  - intros l w0 ev _ [Hz | Hge]; [left; exact Hz | right; apply K_log, Hge].
  - intros sched n_iter ep i l w0 _ _ Hj. unfold train_file.
    apply sat_bind, sat_emit.
    eapply sat_mono with (E := fun _ _ => True); [ | | auto].
    + apply (batch_loop_sat_ix
               (fun step l0 w1 => 0 <= step /\ J l0 w1 /\ K step w1)
               (fun _ _ => True)).
      * intros step l0 w1 Hstep (H0 & Hj0 & Hk0).
        eapply sat_mono;
          [apply (consumed_train_batch sched n_iter
                    {| p_epoch := ep; p_file := i; p_step := step |});
           simpl; auto | | auto].
        intros r w2 [Hj2 Hk2]. simpl in *. repeat split; auto. lia.
      * repeat split; [lia | | ].
        -- destruct Hj as [Hz | Hge]; [left; exact Hz | right; apply K_log, Hge].
        -- unfold K. unfold count. lia.
    + intros l0 w1 (s & _ & Hj1 & _). exact Hj1.
  - left. reflexivity.
Qed.

End ConsumedBatches.

(** C10. [train] cannot return when no optimizer step was made: if
    its loops end with no optimizer step in the log, line 650 divides
    by a [global_step] of 0 and the call fails with a division by
    zero.  That is what happens when the corpus has at most one
    matching file (the loops then end without a single batch), and
    when the batches consumed in the whole run are fewer than
    [gradient_accumulation_steps]. *)
Theorem no_step_division_by_zero x fuel env args w :
  trace w = [] ->
  (forall l w',
     train_loops x fuel env args w = Done l w' ->
     count is_optimizer_step (trace w') = 0 ->
     train x fuel env args w = Fail ZeroDivisionError w') /\
  (forall plan n n_iter,
     (num_files x <= 1)%nat ->
     plan_epochs env x args = Ok plan ->
     py_int (fst plan) = Ok n ->
     estimate_n_iter x args (fst plan) = Ok n_iter ->
     exists w', train_loops x fuel env args w = Done locals0 w' /\
                train x fuel env args w = Fail ZeroDivisionError w') /\
  (forall l w',
     train_loops x fuel env args w = Done l w' ->
     count is_forward (trace w') < gradient_accumulation_steps args ->
     train x fuel env args w = Fail ZeroDivisionError w').
Proof.
  intros Hw. split; [ | split].
  - intros l w'. apply train_without_step, Hw.
  - intros plan n n_iter Hnf Hplan Hn Hiter.
    destruct (train_loops_without_files x fuel env args w plan n n_iter
                Hnf Hplan Hn Hiter) as [w' Hloops].
    exists w'. split; [exact Hloops | ].
    unfold train, bind. rewrite Hloops. reflexivity.
  - intros l w' Hloops Hfew.
    pose proof (consumed_train_loops x fuel args env w) as Hsat.
    rewrite Hloops in Hsat. simpl in Hsat.
    destruct Hsat as [Hz | Hge]; [ | lia].
    unfold train, bind. rewrite Hloops. unfold train_return.
    rewrite Hz. reflexivity.
Qed.

(** * Saving a checkpoint *)

Lemma while_not_solid_retries body :
  forall k fuel n w w1 w2,
    after_failures body n k w = Some w1 ->
    body (n + Z.of_nat k + 1) w1 = Done tt w2 ->
    (k < fuel)%nat ->
    while_not_solid fuel n body w = Done (n + Z.of_nat k + 1) w2.
Proof.
  induction k as [|k IH]; intros fuel n w w1 w2 Hfail Hok Hfuel;
    (destruct fuel as [|fuel]; [lia | ]); simpl in Hfail.
  - inversion Hfail; subst. simpl. unfold bind, try_pass.
    rewrite Z.add_0_r in *. rewrite Hok. reflexivity.
  - cbn [while_not_solid]. unfold bind, try_pass.
    destruct (body (n + 1) w) as [[] w0|e w0|] eqn:Hb; try discriminate.
    cbn [ret].
    replace (n + Z.of_nat (S k) + 1) with (n + 1 + Z.of_nat k + 1) in * by lia.
    apply IH with (w1 := w1); auto. lia.
Qed.

Lemma ensure_dir_done args d w :
  exists w', ensure_dir args d w = Done tt w' /\
             fs_writes w' = fs_writes w /\ fs_files w' = fs_files w.
Proof.
  unfold ensure_dir, bind, path_exists.
  destruct (negb (existsb (dir_eqb d) (fs_dirs w))
            && in_minus1_0 (local_rank args)); simpl;
    eexists; split; try reflexivity; split; reflexivity.
Qed.

Lemma strict_save_checkpoint_fails x fuel args gs w :
  use_philly args = false ->
  faulty x (fs_writes w) = true ->
  exists w', save_checkpoint x fuel args gs w = Fail StorageError w' /\
             fs_writes w' = S (fs_writes w) /\ fs_files w' = fs_files w.
Proof.
  intros Hp Hf. unfold save_checkpoint. rewrite Hp.
  destruct (ensure_dir_done args (artifact_dir Encoder gs) w)
    as (w1 & H1 & Hw1 & Hf1).
  destruct (ensure_dir_done args (artifact_dir Decoder gs) w1)
    as (w2 & H2 & Hw2 & Hf2).
  unfold bind at 1. rewrite H1. unfold bind at 1. rewrite H2.
  unfold bind at 1. unfold save_artifact, attempt, save_pretrained.
  unfold bind at 1. unfold bind at 1. unfold storage_write at 1.
  rewrite Hw2, Hw1, Hf. eexists. split; [reflexivity | ].
  simpl. rewrite ?Hw2, ?Hw1, ?Hf2, ?Hf1. auto.
Qed.

(** C4. For each of the three artifacts of a checkpoint: in resilient
    mode, when the attempts numbered 1 to N fail and attempt N + 1
    succeeds, the retry loop (given fuel for more than N turns) ends
    successfully after N + 1 attempts in the world that attempt left,
    no error reaching the caller; in strict mode one attempt is made
    and its failure is the failure of the save, and
    [save_checkpoint] as a whole fails on the first write that the
    storage refuses, after exactly one write and with no file saved. *)
Theorem resilient_retries_strict_fails x (k : ckpt_kind) (gs : Z) :
  (forall (N fuel : nat) w w1 w2,
     after_failures (attempt x true k gs) 0 N w = Some w1 ->
     attempt x true k gs (Z.of_nat N + 1) w1 = Done tt w2 ->
     (N < fuel)%nat ->
     save_artifact x fuel true k gs w = Done (Z.of_nat N + 1) w2) /\
  (forall fuel w e w1,
     attempt x false k gs 1 w = Fail e w1 ->
     save_artifact x fuel false k gs w = Fail e w1) /\
  (forall fuel args w,
     use_philly args = false ->
     faulty x (fs_writes w) = true ->
     exists w', save_checkpoint x fuel args gs w = Fail StorageError w' /\
                fs_writes w' = S (fs_writes w) /\ fs_files w' = fs_files w).
Proof.
  split; [ | split].
  - intros N fuel w w1 w2 Hfail Hok Hfuel. unfold save_artifact.
    apply (while_not_solid_retries _ N fuel 0 w w1 w2); auto.
  - intros fuel w e w1 Hfail. unfold save_artifact, bind.
    rewrite Hfail. reflexivity.
  - intros fuel args w. apply strict_save_checkpoint_fails.
Qed.

(** * Sample runs *)

(** Where the GPU count is a multiple of the local size the blocks
    are the intended ones: checked for up to 8 processes with up to
    8 GPUs each. *)
Example even_blocks_up_to_8 :
  forallb (fun ls => forallb (even_blocks ls) (seq 1 8)) (seq 1 8) = true.
Proof. vm_compute. reflexivity. Qed.

(** C1. With [max_steps = 2] the run does not stop when
    [global_step] passes 2: the [break] of line 644 leaves the batch
    loop only, so the second file of epoch 0 and both files of epoch 1
    still get a forward call and an optimizer step each, and [train]
    returns normally with [global_step = 5]. *)
Theorem max_steps_leaves_batch_loop_only :
  max_steps (sample_args 1 2 1 1 F64.one true) = 2 /\
  value_of capped_run (0, F64.zero) = (5, F64.one) /\
  forward_calls (trace (world_of capped_run)) =
  [(0%nat, 0%nat, 0, 0, F64.one); (0%nat, 0%nat, 1, 1, F64.one);
   (0%nat, 1%nat, 0, 2, F64.one); (1%nat, 0%nat, 0, 3, F64.one);
   (1%nat, 1%nat, 0, 4, F64.one)] /\
  count is_optimizer_step (trace (world_of capped_run)) = 5.
Proof. repeat split; vm_compute; reflexivity. Qed.

(** C2 as the specification states it fails: with a target weight of
    0.5 and a schedule of three entries, the forward call at step 3
    is given 1.0, which is not the target. *)
Lemma saturation_is_one_not_the_target :
  beta (sample_args 1 (-1) 1 1 half true) = half /\
  schedule_of (sample_externals 3 4 2 0) (host 1 0 1)
              (sample_args 1 (-1) 1 1 half true) = Ok [half; half; half] /\
  forward_calls (trace (world_of long_run)) =
  [(0%nat, 0%nat, 0, 0, half); (0%nat, 0%nat, 1, 1, half);
   (0%nat, 1%nat, 0, 2, half); (0%nat, 1%nat, 1, 3, F64.one)] /\
  F64.eqb F64.one half = false.
Proof. repeat split; vm_compute; reflexivity. Qed.

Lemma weight_follows_schedule_then_one_witness :
  exists sched,
    schedule_of (sample_externals 3 4 2 0) (host 1 0 1)
                (sample_args 1 (-1) 1 1 half true) = Ok sched /\
    0 <= 3 /\
    (3 < Z.of_nat (List.length sched) ->
       nth_error sched (Z.to_nat 3) = Some F64.one) /\
    (Z.of_nat (List.length sched) <= 3 -> F64.one = F64.one) /\
    (forall step prev, 0 <= step ->
       exists b', schedule_gate (sample_args 1 (-1) 1 1 half true)
                    sched step prev = Ok b').
Proof.
  apply (weight_follows_schedule_then_one
           (sample_externals 3 4 2 0) 0 (host 1 0 1)
           (sample_args 1 (-1) 1 1 half true) world0 (world_of long_run)
           {| p_epoch := 0; p_file := 1; p_step := 1 |} 3 F64.one 1).
  - reflexivity.
  - reflexivity.
  - vm_compute. reflexivity.
  - vm_compute. repeat (first [left; reflexivity | right]).
Defined.

Lemma mode_derived_from_weight_witness :
  1 = fb_mode_of (sample_args 1 (-1) 1 1 half true) half.
Proof.
  destruct (mode_derived_from_weight
              (sample_externals 3 4 2 0) 0 (host 1 0 1)
              (sample_args 1 (-1) 1 1 half true) world0 (world_of long_run)
              {| p_epoch := 0; p_file := 0; p_step := 0 |} 0 half 1)
    as [Hm _].
  - reflexivity.
  - vm_compute. reflexivity.
  - vm_compute. repeat (first [left; reflexivity | right]).
  - exact Hm.
Defined.

Lemma no_schedule_zero_weight_witness :
  F64.zero = F64.zero /\
  0 = (if use_deterministic_connect (sample_args 1 (-1) 1 1 half false)
       then 2 else 0).
Proof.
  destruct (no_schedule_zero_weight
              (sample_externals 3 4 2 0) 0 (host 1 0 1)
              (sample_args 1 (-1) 1 1 half false) world0
              (world_of unscheduled_run)
              {| p_epoch := 0; p_file := 1; p_step := 1 |} 3 F64.zero 0)
    as (Hb & Hm & _).
  - reflexivity.
  - reflexivity.
  - vm_compute. reflexivity.
  - vm_compute. repeat (first [left; reflexivity | right]).
  - split; assumption.
Defined.

(** C5 as the specification states it fails where a file does not
    hold a multiple of [gas] batches: with three batches per file and
    [gas = 2], six batches are consumed and [global_step] ends at 2,
    not 3, because the batch index restarts at 0 in every file. *)
Lemma accumulation_restarts_in_every_file :
  gradient_accumulation_steps (sample_args 1 (-1) 1 2 F64.one true) = 2 /\
  count is_forward (trace (world_of odd_run)) = 6 /\
  value_of odd_run (0, F64.zero) = (2, F64.of_Z 3) /\
  map (fun c => let '(_, i, step, gs, _) := c in (i, step, gs))
      (forward_calls (trace (world_of odd_run))) =
  [(0%nat, 0, 0); (0%nat, 1, 0); (0%nat, 2, 1);
   (1%nat, 0, 1); (1%nat, 1, 1); (1%nat, 2, 2)] /\
  6 / 2 <> 2.
Proof. repeat split; try (vm_compute; reflexivity). discriminate. Qed.

Lemma file_turns_and_accumulation_witness :
  Forall (loop_event_ok (sample_externals 3 16 4 0)
                        (sample_args 0 (-1) 2 2 F64.one true))
         (trace (world_of accumulating_run)) /\
  file_turns (trace (world_of accumulating_run)) =
    [(0, 0); (0, 1); (1, 0); (1, 1)]%nat /\
  count is_optimizer_step (trace (world_of accumulating_run)) = 8 /\
  count (is_boundary_forward (sample_args 0 (-1) 2 2 F64.one true))
        (trace (world_of accumulating_run)) = 8.
Proof.
  destruct (file_turns_and_accumulation
              (sample_externals 3 16 4 0) 0 (host 1 0 1)
              (sample_args 0 (-1) 2 2 F64.one true) world0 eq_refl)
    as [Hall Hdone].
  split.
  - apply Hall. vm_compute. reflexivity.
  - destruct (Hdone 8 (F64.of_Z 2) (world_of accumulating_run))
      as (_ & Hb & _ & Ho & _).
    + vm_compute. reflexivity.
    + split; [vm_compute; reflexivity | ]. split; assumption.
Defined.

Lemma coordinator_only_writes_witness :
  file_system (world_of long_run) = file_system world0.
Proof.
  apply (proj1 (coordinator_only_writes
                  (sample_externals 3 4 2 0) 0 (host 1 0 1)
                  (sample_args 1 (-1) 1 1 half true) eq_refl)).
  vm_compute. reflexivity.
Defined.

Lemma no_step_division_by_zero_witness :
  exists w',
    train_loops (sample_externals 1 4 2 0) 0 (host 1 0 1)
                (sample_args 0 (-1) 1 1 half true) world0
    = Done locals0 w' /\
    train (sample_externals 1 4 2 0) 0 (host 1 0 1)
          (sample_args 0 (-1) 1 1 half true) world0
    = Fail ZeroDivisionError w'.
Proof.
  apply (proj1 (proj2 (no_step_division_by_zero
                         (sample_externals 1 4 2 0) 0 (host 1 0 1)
                         (sample_args 0 (-1) 1 1 half true) world0 eq_refl))
           (PyFloat (F64.of_Z 1), 2) 1 1).
  - simpl. lia.
  - vm_compute. reflexivity.
  - vm_compute. reflexivity.
  - vm_compute. reflexivity.
Defined.

Lemma resilient_retries_strict_fails_witness :
  save_artifact (sample_externals 3 4 2 2) 3 true Full 7 world0
  = Done 3 (world_of (save_artifact (sample_externals 3 4 2 2) 3 true Full 7
                        world0)) /\
  fs_writes (world_of (save_artifact (sample_externals 3 4 2 2) 3 true Full 7
                         world0)) = 3%nat.
Proof.
  split; [ | vm_compute; reflexivity].
  apply (proj1 (resilient_retries_strict_fails
                  (sample_externals 3 4 2 2) Full 7)
           2%nat 3%nat world0
           (world_of (Fail StorageError
              (match after_failures
                       (attempt (sample_externals 3 4 2 2) true Full 7)
                       0 2 world0 with
               | Some w => w
               | None => world0
               end) : outcome unit))).
  - vm_compute. reflexivity.
  - vm_compute. reflexivity.
  - lia.
Defined.

(** * The environment, the GPU listing and the host files *)

Lemma split_length sep s :
  List.length (Str.split sep s) = S (occurrences sep s).
Proof.
  induction s as [|c s IH]; simpl; [reflexivity | ].
  destruct (Ascii.eqb c sep); simpl; [rewrite IH; reflexivity | ].
  destruct (Str.split sep s) as [|h t]; simpl in *; [discriminate | exact IH].
Qed.

Lemma split_no_separator sep s piece :
  In piece (Str.split sep s) -> occurrences sep piece = 0%nat.
Proof.
  revert piece. induction s as [|c s IH]; simpl; intros piece Hin.
  - destruct Hin as [<- | []]. reflexivity.
  - destruct (Ascii.eqb c sep) eqn:Hc.
    + destruct Hin as [<- | Hin]; [reflexivity | apply IH, Hin].
    + destruct (Str.split sep s) as [|h t] eqn:Hs.
      * destruct Hin as [<- | []]. simpl. rewrite Hc. reflexivity.
      * destruct Hin as [<- | Hin].
        -- simpl. rewrite Hc. apply IH. left. reflexivity.
        -- apply IH. right. exact Hin.
Qed.

(** X1. [get_gpus_nocache] never returns an empty list: it has one
    entry more than the stripped output of [nvidia-smi] has newlines,
    so an empty listing still counts as one GPU, with an empty
    name. *)
Theorem gpu_listing_never_empty (stdout : string) :
  List.length (get_gpus_nocache stdout)
  = S (occurrences Str.LF (Str.strip stdout)) /\
  get_gpus_nocache stdout <> [] /\
  (Str.strip stdout = EmptyString -> get_gpus_nocache stdout = [EmptyString]).
Proof.
  unfold get_gpus_nocache. rewrite length_map, split_length.
  split; [reflexivity | ]. split.
  - intros H. apply (f_equal (@List.length string)) in H.
    rewrite length_map, split_length in H. discriminate.
  - intros ->. reflexivity.
Qed.

Lemma gpu_listing_never_empty_witness :
  get_gpus_nocache (String Str.LF EmptyString) = [EmptyString].
Proof.
  apply (proj2 (proj2 (gpu_listing_never_empty (String Str.LF EmptyString)))).
  reflexivity.
Defined.

Lemma lstrip_no_space s : no_space s = true -> Str.lstrip s = s.
Proof.
  destruct s as [|c s]; simpl; [reflexivity | ].
  destruct (Str.is_space c); simpl; [discriminate | reflexivity].
Qed.

Lemma rstrip_no_space s : no_space s = true -> Str.rstrip s = s.
Proof.
  induction s as [|c s IH]; simpl; [reflexivity | ].
  intros H. apply andb_true_iff in H. destruct H as [Hc Hs].
  rewrite (IH Hs). destruct s; [ | reflexivity].
  apply negb_true_iff in Hc. rewrite Hc. reflexivity.
Qed.

Lemma strip_no_space s : no_space s = true -> Str.strip s = s.
Proof.
  intros H. unfold Str.strip. rewrite (lstrip_no_space s H).
  apply rstrip_no_space, H.
Qed.

Lemma numeral_no_space d :
  no_space (DecimalString.NilEmpty.string_of_uint d) = true.
Proof. induction d; simpl; auto. Qed.

Lemma digits_numeral d :
  forall z acc after_digit,
    z = Z.of_nat acc ->
    d <> Decimal.Nil \/ after_digit = true ->
    Str.digits (DecimalString.NilEmpty.string_of_uint d) z after_digit
    = Some (Z.of_nat (Nat.of_uint_acc d acc)).
Proof.
  induction d; intros z acc after_digit Hz Hd;
    [destruct Hd as [Hd | ->]; [congruence | subst; reflexivity] | .. ];
    cbn [DecimalString.NilEmpty.string_of_uint Str.digits Nat.of_uint_acc];
    change (Str.is_digit _) with true; cbn iota;
    (apply IHd; [ | right; reflexivity]);
    rewrite Nat.tail_mul_spec; unfold Str.digit_value;
    cbn [nat_of_ascii]; subst z; simpl Nat.sub; lia.
Qed.

Lemma to_uint_not_nil n : Nat.to_uint n <> Decimal.Nil.
Proof.
  rewrite <- (DecimalNat.Unsigned.of_to n) at 1.
  rewrite DecimalNat.Unsigned.to_of. apply DecimalFacts.unorm_nonnil.
Qed.

Lemma to_int_decimal n : Str.to_int (decimal n) = Ok (Z.of_nat n).
Proof.
  unfold Str.to_int, decimal.
  rewrite (strip_no_space _ (numeral_no_space (Nat.to_uint n))).
  pose proof (to_uint_not_nil n) as Hnil.
  pose proof (digits_numeral (Nat.to_uint n) 0 0%nat false eq_refl
                (or_introl Hnil)) as Hd.
  fold (Nat.of_uint (Nat.to_uint n)) in Hd.
  rewrite DecimalNat.Unsigned.of_to in Hd.
  destruct (Nat.to_uint n) eqn:Hn; try congruence;
    cbn [DecimalString.NilEmpty.string_of_uint] in *; rewrite Hd; reflexivity.
Qed.

Lemma env_int_decimal e name default n :
  e name = Some (decimal n) -> env_int e name default = Ok (Z.of_nat n).
Proof.
  intros He. unfold env_int. rewrite He.
  pose proof (to_int_decimal n) as Hn.
  destruct (decimal n); [discriminate | exact Hn].
Qed.

(** X2. The four OMPI variables are read back exactly: when each
    holds the decimal numeral of a number, the resolved environment
    has those four numbers, and its GPU count is the length of the
    GPU listing. *)
Theorem ompi_variables_read_back (e : environment) (nvidia_smi : string)
    (rank size lrank lsize : nat) :
  e "OMPI_COMM_WORLD_RANK"%string = Some (decimal rank) ->
  e "OMPI_COMM_WORLD_SIZE"%string = Some (decimal size) ->
  e "OMPI_COMM_WORLD_LOCAL_RANK"%string = Some (decimal lrank) ->
  e "OMPI_COMM_WORLD_LOCAL_SIZE"%string = Some (decimal lsize) ->
  resolve_environ e nvidia_smi =
  Ok {| ompi_rank := Z.of_nat rank; ompi_size := Z.of_nat size;
        ompi_local_rank := Z.of_nat lrank; ompi_local_size := Z.of_nat lsize;
        gpu_count := Z.of_nat (List.length (get_gpus_nocache nvidia_smi)) |}.
Proof.
  intros Hr Hs Hlr Hls.
  unfold resolve_environ, read_ompi_rank, read_ompi_size,
    read_ompi_local_rank, read_ompi_local_size.
  rewrite (env_int_decimal _ _ _ _ Hr), (env_int_decimal _ _ _ _ Hs),
    (env_int_decimal _ _ _ _ Hlr), (env_int_decimal _ _ _ _ Hls).
  reflexivity.
Qed.

Lemma ompi_variables_read_back_witness :
  resolve_environ (launched 5 8 1 4) "A100" =
  Ok {| ompi_rank := 5; ompi_size := 8; ompi_local_rank := 1;
        ompi_local_size := 4; gpu_count := 1 |}.
Proof.
  exact (ompi_variables_read_back (launched 5 8 1 4) "A100" 5 8 1 4
           eq_refl eq_refl eq_refl eq_refl).
Defined.

Lemma np_arange_raises start stop e :
  np_arange start stop = Raise e -> e = ValueError.
Proof.
  unfold np_arange.
  destruct (F64.ceil _) as [len|]; [ | congruence].
  destruct (len <=? 0); discriminate.
Qed.

Lemma ints_of_raises gs e :
  ints_of gs = Raise e -> e = ValueError \/ e = OverflowError.
Proof.
  induction gs as [|g gs IH]; simpl; [discriminate | ].
  destruct (F64.to_int g) as [z|e'] eqn:Hg.
  - destruct (ints_of gs) as [zs|e'']; [discriminate | ].
    intros H. inversion H; subst. apply IH. reflexivity.
  - intros H. inversion H; subst.
    destruct g; simpl in Hg; inversion Hg; auto.
Qed.

(** X3. A process started without the OMPI variables is local rank 0
    of 1, and whatever [nvidia-smi] printed it passes both assertions
    of [gpu_indices]; asked for uneven shares it gets every listed
    GPU, [0 .. n - 1]. *)
Theorem lone_process_gets_every_gpu (e : environment) (nvidia_smi : string) :
  e "OMPI_COMM_WORLD_RANK"%string = None ->
  e "OMPI_COMM_WORLD_SIZE"%string = None ->
  e "OMPI_COMM_WORLD_LOCAL_RANK"%string = None ->
  e "OMPI_COMM_WORLD_LOCAL_SIZE"%string = None ->
  exists env,
    resolve_environ e nvidia_smi = Ok env /\
    ompi_local_rank env = 0 /\ ompi_local_size env = 1 /\
    gpu_indices env false =
      Ok (map Z.of_nat (seq 0 (List.length (get_gpus_nocache nvidia_smi)))) /\
    gpu_indices env true <> Raise AssertionError.
Proof.
  intros Hr Hs Hlr Hls.
  unfold resolve_environ, read_ompi_rank, read_ompi_size,
    read_ompi_local_rank, read_ompi_local_size, env_int.
  rewrite Hr, Hs, Hlr, Hls. eexists. split; [reflexivity | ].
  destruct (gpu_listing_never_empty nvidia_smi) as (Hlen & _ & _).
  set (n := List.length (get_gpus_nocache nvidia_smi)) in *.
  assert (Hn : 1 <= Z.of_nat n) by lia.
  repeat split.
  - unfold gpu_indices. cbn [ompi_local_rank ompi_local_size gpu_count].
    replace (1 <=? Z.of_nat n) with true by (symmetry; apply Z.leb_le; lia).
    cbn. unfold np_array_split_range.
    rewrite Z.div_1_r, Z.mod_1_r. cbn. rewrite Nat2Z.id. reflexivity.
  - unfold gpu_indices. cbn [ompi_local_rank ompi_local_size gpu_count].
    replace (1 <=? Z.of_nat n) with true by (symmetry; apply Z.leb_le; lia).
    cbn [Z.leb Z.ltb Z.compare andb negb].
    destruct (np_arange _ _) as [gpus|e1] eqn:Ha.
    + intros H. apply ints_of_raises in H. destruct H; discriminate.
    + intros H. inversion H; subst. apply np_arange_raises in Ha. discriminate.
Qed.

Lemma lone_process_gets_every_gpu_witness :
  exists env,
    resolve_environ bare "" = Ok env /\
    ompi_local_rank env = 0 /\ ompi_local_size env = 1 /\
    gpu_indices env false =
      Ok (map Z.of_nat (seq 0 (List.length (get_gpus_nocache "")))) /\
    gpu_indices env true <> Raise AssertionError.
Proof.
  exact (lone_process_gets_every_gpu bare "" eq_refl eq_refl eq_refl eq_refl).
Defined.

(** ** The host files *)

Lemma read_pair_entry d line :
  read_pair d line = option_map (fun en => en :: d) (entry line).
Proof.
  unfold read_pair, entry.
  destruct (Str.split " " line) as [|v [|f rest]]; reflexivity.
Qed.

Lemma entry_none line :
  entry line = None <-> occurrences " " line = 0%nat.
Proof.
  unfold entry. pose proof (split_length " " line) as Hlen.
  destruct (Str.split " " line) as [|v [|f rest]]; simpl in Hlen; split;
    intros H; try discriminate; try reflexivity; try lia.
Qed.

Lemma read_pairs_stops lines :
  forall d l, In l lines -> entry l = None -> read_pairs d lines = None.
Proof.
  induction lines as [|line rest IH]; intros d l Hin Hl; [contradiction | ].
  simpl. rewrite read_pair_entry.
  destruct (entry line) as [en|] eqn:He; simpl; [ | reflexivity].
  destruct Hin as [-> | Hin]; [congruence | ]. apply (IH _ l); auto.
Qed.

Lemma entries_cons line rest :
  entries (line :: rest) =
  match entry line with Some en => [en] | None => [] end ++ entries rest.
Proof. reflexivity. Qed.

Lemma entries_app l1 l2 : entries (l1 ++ l2) = entries l1 ++ entries l2.
Proof. apply flat_map_app. Qed.

Lemma read_pairs_entries lines :
  forall d, Forall (fun l => entry l <> None) lines ->
            read_pairs d lines = Some (rev (entries lines) ++ d).
Proof.
  induction lines as [|line rest IH]; intros d Hall; [reflexivity | ].
  inversion Hall as [|? ? Hline Hrest]; subst.
  cbn [read_pairs]. rewrite read_pair_entry, entries_cons.
  destruct (entry line) as [en|] eqn:He; [ | congruence]. cbn [option_map].
  rewrite (IH _ Hrest). cbn [app rev].
  rewrite <- app_assoc. reflexivity.
Qed.

Lemma lookup_skip key l1 l2 :
  (forall v, ~ In (key, v) l1) -> lookup key (l1 ++ l2) = lookup key l2.
Proof.
  induction l1 as [|[k v] l1 IH]; intros Hno; [reflexivity | ].
  simpl. destruct (String.eqb k key) eqn:Hk.
  - apply String.eqb_eq in Hk. subst. exfalso. apply (Hno v). left. reflexivity.
  - apply IH. intros v' Hin. apply (Hno v'). right. exact Hin.
Qed.

Lemma entries_in line_list en :
  In en (entries line_list) -> exists l, In l line_list /\ entry l = Some en.
Proof.
  unfold entries. rewrite in_flat_map. intros (l & Hl & Hen).
  exists l. split; [exact Hl | ].
  destruct (entry l) as [en'|]; [ | contradiction].
  destruct Hen as [-> | []]. reflexivity.
Qed.

Lemma well_formed_lines lines :
  Forall (fun l => occurrences " " l <> 0%nat) lines ->
  Forall (fun l => entry l <> None) lines.
Proof.
  apply Forall_impl. intros l Hl He. apply entry_none in He. contradiction.
Qed.

(** X4. When every line of the hosts file has a space, the address
    returned for a host is the first field of the last line whose
    second field, stripped, is that host's name: later entries
    override earlier ones. *)
Theorem master_ip_is_last_entry (master_name : option string)
    (mpi_hosts etc_hosts : string) (pre post : list string)
    (line ip : string) :
  Str.readlines etc_hosts = pre ++ line :: post ->
  Forall (fun l => occurrences " " l <> 0%nat) (pre ++ post) ->
  entry line = Some (wanted_host master_name mpi_hosts, ip) ->
  Forall (fun l => forall v,
            entry l <> Some (wanted_host master_name mpi_hosts, v)) post ->
  get_master_ip master_name mpi_hosts etc_hosts = Address ip.
Proof.
  intros Hlines Hwf Hline Hpost.
  unfold get_master_ip. fold (wanted_host master_name mpi_hosts).
  set (m := wanted_host master_name mpi_hosts) in *.
  rewrite Hlines.
  apply Forall_app in Hwf. destruct Hwf as [Hpre Hpost_wf].
  rewrite read_pairs_entries.
  - rewrite entries_app, entries_cons, Hline.
    rewrite rev_app_distr. cbn [app rev].
    rewrite <- !app_assoc. cbn [app].
    rewrite lookup_skip.
    + simpl. rewrite String.eqb_refl. reflexivity.
    + intros v Hin. apply in_rev in Hin.
      apply entries_in in Hin. destruct Hin as (l & Hl & He).
      rewrite Forall_forall in Hpost. apply (Hpost l Hl v He).
  - apply Forall_app. split; [apply well_formed_lines, Hpre | ].
    constructor; [congruence | apply well_formed_lines, Hpost_wf].
Qed.

(** X5. One line without a space anywhere in the hosts file, a blank
    line or a tab-separated entry for instance, makes [get_master_ip]
    fail with an [IndexError], whatever the other lines hold. *)
Theorem line_without_space_breaks_lookup (master_name : option string)
    (mpi_hosts etc_hosts : string) (l : string) :
  In l (Str.readlines etc_hosts) ->
  occurrences " " l = 0%nat ->
  get_master_ip master_name mpi_hosts etc_hosts = NoSecondField.
Proof.
  intros Hin Hl. unfold get_master_ip.
  rewrite (read_pairs_stops _ [] l Hin); [reflexivity | ].
  apply entry_none, Hl.
Qed.

(** X6. When every line has a space but no line has the wanted name
    as its stripped second field, the lookup ends in a [KeyError];
    an entry whose address and name are two spaces apart is such a
    line, its second field being empty. *)
Theorem unknown_host_key_error (master_name : option string)
    (mpi_hosts etc_hosts : string) :
  Forall (fun l => occurrences " " l <> 0%nat) (Str.readlines etc_hosts) ->
  (forall l v, In l (Str.readlines etc_hosts) ->
               entry l <> Some (wanted_host master_name mpi_hosts, v)) ->
  get_master_ip master_name mpi_hosts etc_hosts = UnknownHost.
Proof.
  intros Hwf Hno. unfold get_master_ip.
  fold (wanted_host master_name mpi_hosts).
  rewrite read_pairs_entries by (apply well_formed_lines, Hwf).
  rewrite lookup_skip; [reflexivity | ].
  intros v Hin. apply in_rev in Hin. apply entries_in in Hin.
  destruct Hin as (l & Hl & He). apply (Hno l v Hl He).
Qed.

Lemma master_ip_is_last_entry_witness :
  get_master_ip (Some "node1"%string) ""
    (hosts_line "10.0.0.1" " " "node1" ++ hosts_line "10.0.0.9" " " "node1")
  = Address "10.0.0.9".
Proof.
  apply (master_ip_is_last_entry (Some "node1"%string) ""
           (hosts_line "10.0.0.1" " " "node1"
            ++ hosts_line "10.0.0.9" " " "node1")
           [hosts_line "10.0.0.1" " " "node1"] []
           (hosts_line "10.0.0.9" " " "node1") "10.0.0.9").
  - vm_compute. reflexivity.
  - repeat constructor. vm_compute. discriminate.
  - vm_compute. reflexivity.
  - constructor.
Defined.

Lemma line_without_space_breaks_lookup_witness :
  get_master_ip (Some "node1"%string) ""
    (hosts_line "10.0.0.1" " " "node1"
     ++ hosts_line "10.0.0.2" (String (ascii_of_nat 9) "") "node2")
  = NoSecondField.
Proof.
  apply (line_without_space_breaks_lookup (Some "node1"%string) ""
           (hosts_line "10.0.0.1" " " "node1"
            ++ hosts_line "10.0.0.2" (String (ascii_of_nat 9) "") "node2")
           (hosts_line "10.0.0.2" (String (ascii_of_nat 9) "") "node2")).
  - vm_compute. right. left. reflexivity.
  - vm_compute. reflexivity.
Defined.

Lemma unknown_host_key_error_witness :
  get_master_ip None (hosts_line "node1" "" "")
    (hosts_line "10.0.0.1" "  " "node1")
  = UnknownHost.
Proof.
  apply (unknown_host_key_error None (hosts_line "node1" "" "")
           (hosts_line "10.0.0.1" "  " "node1")).
  - repeat constructor. vm_compute. discriminate.
  - intros l v Hin. vm_compute in Hin. destruct Hin as [<- | []].
    vm_compute. discriminate.
Defined.

(** ** Uneven shares of the GPUs *)

Lemma uneven_block gc ls lr :
  0 <= lr < ls -> ls <= gc ->
  gpu_indices (host ls lr gc) false =
  Ok (map (fun i : nat => block_start gc ls lr + Z.of_nat i)
          (seq 0 (Z.to_nat (block_size gc ls lr)))).
Proof.
  intros Hr Hgc. unfold gpu_indices, host.
  cbn [ompi_local_rank ompi_local_size gpu_count].
  replace ((0 <=? lr) && (lr <? ls)) with true
    by (symmetry; apply andb_true_iff; split;
        [apply Z.leb_le | apply Z.ltb_lt]; lia).
  replace ((ls <=? gc) && (0 <? ls)) with true
    by (symmetry; apply andb_true_iff; split;
        [apply Z.leb_le | apply Z.ltb_lt]; lia).
  reflexivity.
Qed.

Lemma share_facts gc ls :
  0 < ls <= gc ->
  1 <= gc / ls /\ 0 <= gc mod ls < ls /\ gc = ls * (gc / ls) + gc mod ls.
Proof.
  intros H. pose proof (Z.div_mod gc ls ltac:(lia)) as Hdm.
  pose proof (Z.mod_pos_bound gc ls ltac:(lia)) as Hmod.
  repeat split; nia.
Qed.

Lemma block_size_bounds gc ls r :
  0 < ls <= gc -> 1 <= block_size gc ls r <= gc / ls + 1.
Proof.
  intros H. destruct (share_facts gc ls H) as (He & _ & _).
  unfold block_size. destruct (r <? gc mod ls); lia.
Qed.

Lemma block_start_next gc ls r :
  0 < ls <= gc -> 0 <= r ->
  block_start gc ls (r + 1) = block_start gc ls r + block_size gc ls r.
Proof.
  intros H Hr. destruct (share_facts gc ls H) as (He & Hm & _).
  unfold block_start, block_size.
  destruct (r <? gc mod ls) eqn:Hlt;
    [apply Z.ltb_lt in Hlt | apply Z.ltb_ge in Hlt]; lia.
Qed.

Lemma block_start_mono gc ls r r' :
  0 < ls <= gc -> 0 <= r <= r' ->
  block_start gc ls r <= block_start gc ls r'.
Proof.
  intros H Hr. destruct (share_facts gc ls H) as (He & Hm & _).
  unfold block_start.
  assert (r * (gc / ls) <= r' * (gc / ls)) by nia. lia.
Qed.

Lemma block_start_end gc ls :
  0 < ls <= gc -> block_start gc ls 0 = 0 /\ block_start gc ls ls = gc.
Proof.
  intros H. destruct (share_facts gc ls H) as (He & Hm & Hdm).
  unfold block_start. split; lia.
Qed.

Lemma in_block gc ls r d :
  0 < ls <= gc -> 0 <= r ->
  In d (map (fun i : nat => block_start gc ls r + Z.of_nat i)
            (seq 0 (Z.to_nat (block_size gc ls r)))) <->
  block_start gc ls r <= d < block_start gc ls (r + 1).
Proof.
  intros H Hr. rewrite block_start_next by assumption.
  pose proof (block_size_bounds gc ls r H) as Hs.
  rewrite in_map_iff. split.
  - intros (i & <- & Hi). apply in_seq in Hi. lia.
  - intros Hd. exists (Z.to_nat (d - block_start gc ls r)). split; [lia | ].
    apply in_seq. lia.
Qed.

Lemma covering_block gc ls :
  0 < ls <= gc ->
  forall (m : nat) d,
    Z.of_nat m <= ls -> 0 <= d < block_start gc ls (Z.of_nat m) ->
    exists r, 0 <= r < Z.of_nat m /\
              block_start gc ls r <= d < block_start gc ls (r + 1).
Proof.
  intros H. induction m as [|m IH]; intros d Hm Hd.
  - destruct (block_start_end gc ls H) as [H0 _]. simpl in Hd. lia.
  - destruct (Z_lt_le_dec d (block_start gc ls (Z.of_nat m))) as [Hlt | Hge].
    + destruct (IH d ltac:(lia) ltac:(lia)) as (r & Hr & Hin).
      exists r. split; [lia | exact Hin].
    + exists (Z.of_nat m). split; [lia | ].
      replace (Z.of_nat m + 1) with (Z.of_nat (S m)) by lia. lia.
Qed.

(** X7. Asked for uneven shares, [gpu_indices] gives a rank a block
    of consecutive device indices that is never empty, lies inside
    [0 .. gpu_count - 1] and has [gpu_count // local_size] entries,
    one more on the first [gpu_count % local_size] ranks. *)
Theorem uneven_share_is_a_block (gc ls lr : Z) :
  0 <= lr < ls -> ls <= gc ->
  exists l,
    gpu_indices (host ls lr gc) false = Ok l /\
    l <> [] /\
    (forall i d, nth_error l i = Some d -> d = hd 0 l + Z.of_nat i) /\
    Z.of_nat (List.length l) = gc / ls + (if lr <? gc mod ls then 1 else 0) /\
    (forall d, In d l -> 0 <= d < gc).
Proof.
  intros Hr Hgc. assert (H : 0 < ls <= gc) by lia.
  rewrite (uneven_block gc ls lr Hr Hgc).
  pose proof (block_size_bounds gc ls lr H) as Hs.
  eexists. split; [reflexivity | ].
  assert (Hnth : forall i d,
            nth_error (map (fun i : nat => block_start gc ls lr + Z.of_nat i)
                           (seq 0 (Z.to_nat (block_size gc ls lr)))) i = Some d ->
            d = block_start gc ls lr + Z.of_nat i).
  { intros i d Hi. rewrite nth_error_map in Hi.
    destruct (nth_error (seq 0 (Z.to_nat (block_size gc ls lr))) i)
      as [j|] eqn:Hj; [ | discriminate].
    assert (Hlt : (i < List.length (seq 0 (Z.to_nat (block_size gc ls lr))))%nat)
      by (apply nth_error_Some; congruence).
    pose proof (nth_error_nth _ i 0%nat Hj) as Hn.
    rewrite length_seq in Hlt. rewrite seq_nth in Hn by exact Hlt.
    inversion Hi; subst. lia. }
  assert (Hhd : hd 0 (map (fun i : nat => block_start gc ls lr + Z.of_nat i)
                          (seq 0 (Z.to_nat (block_size gc ls lr))))
                = block_start gc ls lr).
  { destruct (Z.to_nat (block_size gc ls lr)) eqn:Hn; [lia | ]. simpl. lia. }
  repeat split.
  - intros Hnil. apply (f_equal (@List.length Z)) in Hnil.
    rewrite length_map, length_seq in Hnil. simpl in Hnil. lia.
  - intros i d Hi. rewrite Hhd. apply Hnth, Hi.
  - rewrite length_map, length_seq.
    unfold block_size in *. destruct (lr <? gc mod ls); lia.
  - apply (in_block gc ls lr d H ltac:(lia)) in H0.
    pose proof (block_start_mono gc ls 0 lr H ltac:(lia)).
    destruct (block_start_end gc ls H). lia.
  - apply (in_block gc ls lr d H ltac:(lia)) in H0.
    pose proof (block_start_mono gc ls (lr + 1) ls H ltac:(lia)).
    destruct (block_start_end gc ls H). lia.
Qed.

Lemma uneven_share_is_a_block_witness :
  exists l,
    gpu_indices (host 3 2 8) false = Ok l /\
    l <> [] /\
    (forall i d, nth_error l i = Some d -> d = hd 0 l + Z.of_nat i) /\
    Z.of_nat (List.length l) = 8 / 3 + (if 2 <? 8 mod 3 then 1 else 0) /\
    (forall d, In d l -> 0 <= d < 8).
Proof.
  apply (uneven_share_is_a_block 8 3 2); lia.
Defined.

(** X8. Asked for uneven shares, the local ranks of a host split its
    GPUs: every device index from 0 to [gpu_count - 1] is in the list
    of exactly one local rank. *)
Theorem uneven_shares_partition (gc ls d : Z) :
  0 < ls <= gc -> 0 <= d < gc ->
  exists r,
    0 <= r < ls /\
    (exists l, gpu_indices (host ls r gc) false = Ok l /\ In d l) /\
    (forall r' l', 0 <= r' < ls ->
                   gpu_indices (host ls r' gc) false = Ok l' -> In d l' ->
                   r' = r).
Proof.
  intros H Hd.
  destruct (block_start_end gc ls H) as [_ Hend].
  destruct (covering_block gc ls H (Z.to_nat ls) d ltac:(lia) ltac:(rewrite Z2Nat.id; lia))
    as (r & Hr & Hin).
  rewrite Z2Nat.id in Hr by lia.
  exists r. split; [exact Hr | ]. split.
  - eexists. split; [apply uneven_block; lia | ].
    apply in_block; auto; lia.
  - intros r' l' Hr' Hl' Hin'.
    rewrite uneven_block in Hl' by lia. inversion Hl'; subst l'.
    apply in_block in Hin'; auto; try lia.
    destruct (Z.lt_trichotomy r r') as [Hlt | [Heq | Hgt]]; [ | auto | ].
    + pose proof (block_start_mono gc ls (r + 1) r' H ltac:(lia)). lia.
    + pose proof (block_start_mono gc ls (r' + 1) r H ltac:(lia)). lia.
Qed.

Lemma uneven_shares_partition_witness :
  exists r,
    0 <= r < 3 /\
    (exists l, gpu_indices (host 3 r 8) false = Ok l /\ In 5 l) /\
    (forall r' l', 0 <= r' < 3 ->
                   gpu_indices (host 3 r' 8) false = Ok l' -> In 5 l' ->
                   r' = r).
Proof.
  apply (uneven_shares_partition 8 3 5); lia.
Defined.

(** ** The block size *)

(** X9. With both tokenizer maxima positive, the block size that
    [main] settles on is positive and exceeds neither maximum: a
    request that is not positive becomes the smaller maximum, any
    other request is cut down to it.  With an encoder maximum that is
    not positive the request is lost and the decoder maximum is
    taken. *)
Theorem block_size_within_both_maxima (block_size encoder_max decoder_max : Z) :
  (0 < encoder_max -> 0 < decoder_max ->
   0 < resolve_block_size block_size encoder_max decoder_max /\
   resolve_block_size block_size encoder_max decoder_max =
     if block_size <=? 0 then Z.min encoder_max decoder_max
     else Z.min block_size (Z.min encoder_max decoder_max)) /\
  (encoder_max <= 0 ->
   resolve_block_size block_size encoder_max decoder_max = decoder_max).
Proof.
  unfold resolve_block_size, clamp_block_size. split.
  - intros He Hd.
    destruct (block_size <=? 0) eqn:Hb;
      [apply Z.leb_le in Hb | apply Z.leb_gt in Hb].
    + rewrite Z.min_id.
      replace (encoder_max <=? 0) with false by (symmetry; apply Z.leb_gt; lia).
      lia.
    + replace (Z.min block_size encoder_max <=? 0) with false
        by (symmetry; apply Z.leb_gt; lia).
      lia.
  - intros He.
    destruct (block_size <=? 0) eqn:Hb;
      [apply Z.leb_le in Hb | apply Z.leb_gt in Hb].
    + rewrite Z.min_id.
      replace (encoder_max <=? 0) with true by (symmetry; apply Z.leb_le; lia).
      lia.
    + replace (Z.min block_size encoder_max <=? 0) with true
        by (symmetry; apply Z.leb_le; lia).
      lia.
Qed.

Lemma block_size_within_both_maxima_witness :
  0 < resolve_block_size (-1) 512 1024 /\
  resolve_block_size (-1) 512 1024 =
    (if -1 <=? 0 then Z.min 512 1024 else Z.min (-1) (Z.min 512 1024)).
Proof.
  apply (proj1 (block_size_within_both_maxima (-1) 512 1024)); lia.
Defined.

(** ** More on saving a checkpoint *)

Lemma ensure_dir_never_fails args d w :
  exists w', ensure_dir args d w = Done tt w' /\
             fs_writes w' = fs_writes w /\ fs_files w' = fs_files w /\
             trace w' = trace w.
Proof.
  unfold ensure_dir, bind, path_exists.
  destruct (negb (existsb (dir_eqb d) (fs_dirs w))
            && in_minus1_0 (local_rank args)); simpl;
    eexists; repeat split; reflexivity.
Qed.

Lemma while_not_solid_never_fails fuel body :
  forall n w e w', while_not_solid fuel n body w <> Fail e w'.
Proof.
  induction fuel as [|fuel IH]; intros n w e w'; simpl; [discriminate | ].
  unfold bind, try_pass.
  destruct (body (n + 1) w) as [[] w1|e1 w1|]; simpl;
    [discriminate | apply IH | discriminate].
Qed.

Lemma attempt_refused x philly k gs n w :
  (forall i, faulty x i = true) ->
  exists w1, attempt x philly k gs n w = Fail StorageError w1.
Proof.
  intros Hdown. unfold attempt, save_pretrained, torch_save.
  destruct k; unfold bind, storage_write, when, emit.
  - rewrite Hdown. eauto.
  - rewrite Hdown. eauto.
  - destruct philly; simpl; rewrite Hdown; eauto.
Qed.

Lemma while_not_solid_hangs x philly k gs fuel :
  (forall i, faulty x i = true) ->
  forall n w, while_not_solid fuel n (attempt x philly k gs) w = Hang.
Proof.
  intros Hdown. induction fuel as [|fuel IH]; intros n w; simpl;
    [reflexivity | ].
  unfold bind, try_pass.
  destruct (attempt_refused x philly k gs (n + 1) w Hdown) as [w1 ->].
  simpl. apply IH.
Qed.



Lemma storage_write_healthy x f w :
  faulty x (fs_writes w) = false ->
  storage_write x f w =
  Done tt {| fs_dirs := fs_dirs w; fs_files := f :: fs_files w;
             fs_writes := S (fs_writes w); forwards := forwards w;
             trace := trace w |}.
Proof. intros H. unfold storage_write. rewrite H. reflexivity. Qed.

Lemma attempt_healthy x philly k gs n w :
  (forall i, (i < List.length (artifact_files philly k gs))%nat ->
             faulty x (fs_writes w + i) = false) ->
  exists w',
    attempt x philly k gs n w = Done tt w' /\
    fs_files w' = artifact_files philly k gs ++ fs_files w /\
    fs_writes w' = (fs_writes w + List.length (artifact_files philly k gs))%nat /\
    fs_dirs w' = fs_dirs w.
Proof.
  intros Hok.
  assert (H0 : faulty x (fs_writes w) = false).
  { specialize (Hok 0%nat). rewrite Nat.add_0_r in Hok. apply Hok.
    destruct k; simpl; lia. }
  unfold attempt, save_pretrained, torch_save. destruct k.
  - assert (H1 : faulty x (S (fs_writes w)) = false).
    { specialize (Hok 1%nat). rewrite Nat.add_1_r in Hok. apply Hok.
      simpl; lia. }
    unfold bind. rewrite (storage_write_healthy x _ w H0).
    rewrite storage_write_healthy by exact H1.
    eexists. repeat split; simpl; lia.
  - assert (H1 : faulty x (S (fs_writes w)) = false).
    { specialize (Hok 1%nat). rewrite Nat.add_1_r in Hok. apply Hok.
      simpl; lia. }
    unfold bind. rewrite (storage_write_healthy x _ w H0).
    rewrite storage_write_healthy by exact H1.
    eexists. repeat split; simpl; lia.
  - unfold bind. destruct philly; simpl.
    + rewrite storage_write_healthy by exact H0.
      eexists. repeat split; simpl; lia.
    + rewrite storage_write_healthy by exact H0.
      eexists. repeat split; simpl; lia.
Qed.

Lemma save_artifact_healthy x fuel philly k gs w :
  (philly = true -> (1 <= fuel)%nat) ->
  (forall i, (i < List.length (artifact_files philly k gs))%nat ->
             faulty x (fs_writes w + i) = false) ->
  exists w',
    save_artifact x fuel philly k gs w = Done 1 w' /\
    fs_files w' = artifact_files philly k gs ++ fs_files w /\
    fs_writes w' = (fs_writes w + List.length (artifact_files philly k gs))%nat /\
    fs_dirs w' = fs_dirs w.
Proof.
  intros Hfuel Hok. unfold save_artifact. destruct philly.
  - destruct fuel as [|fuel]; [specialize (Hfuel eq_refl); lia | ].
    destruct (attempt_healthy x true k gs (0 + 1) w Hok) as (w' & Ha & Hrest).
    exists w'. split; [ | exact Hrest].
    cbn [while_not_solid]. unfold bind, try_pass. rewrite Ha. reflexivity.
  - destruct (attempt_healthy x false k gs 1 w Hok) as (w' & Ha & Hrest).
    exists w'. split; [ | exact Hrest].
    unfold bind. rewrite Ha. reflexivity.
Qed.



(** ** Invariants of the file system *)

Section SavingInvariant.
Variable I : world -> Prop.
Variable x : externals.
Variable fuel : nat.
Variable args : Args.
Variable gs : Z.

Hypothesis I_dir :
  forall w k, existsb (dir_eqb (artifact_dir k gs)) (fs_dirs w) = false ->
              in_minus1_0 (local_rank args) = true ->
              I w -> I (add_dir w (artifact_dir k gs)).
Hypothesis I_file :
  forall w k name, I w -> I (add_file w (artifact_dir k gs, name)).
Hypothesis I_refused : forall w, I w -> I (refuse_write w).
Hypothesis I_attempts :
  forall w n, I w -> I (log_event w (SaveAttemptLogged n)).

Lemma saving_storage_write k name : keeps I (storage_write x (artifact_dir k gs, name)).
Proof.
  intros w Hw. unfold storage_write.
  destruct (faulty x (fs_writes w)); simpl; [apply I_refused | apply I_file];
    exact Hw.
Qed.

Lemma saving_attempt philly k n : keeps I (attempt x philly k gs n).
Proof.
  unfold attempt, save_pretrained, torch_save.
  destruct k; repeat (apply keeps_bind; [ | intros _]);
    try apply saving_storage_write.
  apply keeps_when. intros w Hw. apply I_attempts, Hw.
Qed.

Lemma saving_artifact philly k : keeps I (save_artifact x fuel philly k gs).
Proof.
  unfold save_artifact. destruct philly.
  - apply keeps_while_not_solid. intros n. apply saving_attempt.
  - apply keeps_bind; [apply saving_attempt | intros _; apply keeps_ret].
Qed.

Lemma saving_ensure_dir k : keeps I (ensure_dir args (artifact_dir k gs)).
Proof.
  intros w Hw. unfold ensure_dir, bind, path_exists.
  destruct (existsb (dir_eqb (artifact_dir k gs)) (fs_dirs w)) eqn:Hex;
    simpl; [exact Hw | ].
  destruct (in_minus1_0 (local_rank args)) eqn:Hr; simpl; [ | exact Hw].
  apply I_dir; auto.
Qed.

Lemma saving_checkpoint : keeps I (save_checkpoint x fuel args gs).
Proof.
  unfold save_checkpoint.
  repeat (apply keeps_bind; [ | intros _]);
    auto using saving_ensure_dir, saving_artifact, keeps_ret.
Qed.

End SavingInvariant.

Section GuardedInvariant.
Variable I : world -> Prop.
Variable x : externals.
Variable fuel : nat.
Variable env : environ.
Variable args : Args.

Hypothesis I_log : forall w e, I w -> I (log_event w e).
Hypothesis I_forward : forall w, I w -> I (count_forward w).
Hypothesis I_save :
  forall gs, save_point args gs -> keeps I (save_checkpoint x fuel args gs).

Lemma guarded_optimizer_boundary p l :
  keeps I (optimizer_boundary x fuel args p l).
Proof.
  unfold optimizer_boundary.
  repeat (apply keeps_bind;
          [apply keeps_emit; intros; apply I_log; auto | intros _]).
  apply keeps_bind.
  - destruct (_ && _ && _); [ | apply keeps_ret].
    apply keeps_bind; [apply keeps_when | intros _; apply keeps_bind;
                       [ | intros _; apply keeps_ret]];
      apply keeps_emit; intros; apply I_log; auto.
  - intros ll. apply keeps_bind; [ | intros _; apply keeps_ret].
    destruct (in_minus1_0 (local_rank args) && (0 <? save_steps args)
              && ((global_step l + 1) mod save_steps args =? 0)) eqn:Hg;
      [ | apply keeps_ret].
    apply andb_true_iff in Hg. destruct Hg as [Hg Hmod].
    apply andb_true_iff in Hg. destruct Hg as [Hr Hpos].
    apply I_save. repeat split; auto.
    + apply Z.ltb_lt, Hpos.
    + apply Z.eqb_eq, Hmod.
Qed.

Lemma guarded_train_batch sched n_iter p l :
  keeps I (train_batch x fuel args sched n_iter p l).
Proof.
  unfold train_batch.
  apply keeps_bind; [apply keeps_lift | intros b].
  apply keeps_bind; [apply keeps_when, keeps_raise | intros _].
  apply keeps_bind.
  { intros w Hw. unfold forward_call. simpl. apply I_forward, I_log, Hw. }
  intros loss.
  apply keeps_bind.
  { apply keeps_when, keeps_bind.
    - apply keeps_emit; intros; apply I_log; auto.
    - intros _. apply keeps_when, keeps_raise. }
  intros _.
  apply keeps_bind; [apply keeps_emit; intros; apply I_log; auto | intros _].
  apply keeps_bind; [apply keeps_when, keeps_raise | intros _].
  apply keeps_bind; [ | intros l2; apply keeps_ret].
  destruct (_ =? 0); [apply guarded_optimizer_boundary | apply keeps_ret].
Qed.

Lemma guarded_train_loops : keeps I (train_loops x fuel env args).
Proof.
  intros w Hw.
  apply (train_loops_sat (fun _ => I) (fun _ => I)); auto.
  intros sched n_iter p l w0 _ _ _ Hw0.
  eapply sat_mono; [apply guarded_train_batch, Hw0 | | ]; auto.
Qed.

Lemma guarded_train w w' :
  I w -> final_world (train x fuel env args w) = Some w' -> I w'.
Proof.
  intros Hw Hrun. apply train_final_world in Hrun.
  apply (sat_final I (train_loops x fuel env args w) w'); [ | exact Hrun].
  apply guarded_train_loops, Hw.
Qed.

End GuardedInvariant.

Lemma grew_from_refl w : grew_from w w.
Proof.
  repeat split; try (exists []; rewrite ?app_nil_r; reflexivity). lia.
Qed.

Lemma grew_from_log w0 w e : grew_from w0 w -> grew_from w0 (log_event w e).
Proof.
  intros (Hd & Hf & Hw & (evs & He)). repeat split; auto.
  exists (evs ++ [e]). simpl. rewrite He, app_assoc. reflexivity.
Qed.

Lemma grew_from_save w0 x fuel args gs :
  keeps (grew_from w0) (save_checkpoint x fuel args gs).
Proof.
  apply saving_checkpoint.
  - intros w k _ _ ((ds & Hd) & Hf & Hw & He). repeat split; auto.
    exists (artifact_dir k gs :: ds). simpl. rewrite Hd. reflexivity.
  - intros w k name (Hd & (fs & Hf) & Hw & He). repeat split; auto.
    + exists ((artifact_dir k gs, name) :: fs). simpl. rewrite Hf. reflexivity.
    + simpl. lia.
  - intros w (Hd & Hf & Hw & He). repeat split; auto. simpl. lia.
  - intros w n. apply grew_from_log.
Qed.



Lemma dir_eqb_refl d : dir_eqb d d = true.
Proof. destruct d as [[] z]; simpl; apply Z.eqb_refl. Qed.

Lemma absent_not_in d ds :
  existsb (dir_eqb d) ds = false -> ~ In d ds.
Proof.
  intros Hex Hin.
  assert (Htrue : existsb (dir_eqb d) ds = true).
  { apply existsb_exists. exists d. split; [exact Hin | apply dir_eqb_refl]. }
  congruence.
Qed.

Lemma no_duplicate_dirs_save x fuel args gs :
  keeps (fun w => NoDup (fs_dirs w)) (save_checkpoint x fuel args gs).
Proof.
  apply saving_checkpoint; auto.
  intros w k Habs _ Hw. simpl. constructor; [ | exact Hw].
  apply absent_not_in, Habs.
Qed.

(** X13. Directories are only created where they are missing: a
    file system without a directory listed twice stays so through
    [save_checkpoint] and through [train], so a checkpoint directory
    that already exists is written into, not created again. *)
Theorem directories_created_once x fuel env args gs w w' :
  NoDup (fs_dirs w) ->
  (final_world (save_checkpoint x fuel args gs w) = Some w' ->
   NoDup (fs_dirs w')) /\
  (final_world (train x fuel env args w) = Some w' -> NoDup (fs_dirs w')).
Proof.
  intros Hw. split.
  - intros Hrun.
    apply (sat_final (fun w0 => NoDup (fs_dirs w0))
                     (save_checkpoint x fuel args gs w) w'); [ | exact Hrun].
    apply no_duplicate_dirs_save, Hw.
  - intros Hrun.
    apply (guarded_train (fun w0 => NoDup (fs_dirs w0)) x fuel env args)
      with (w := w); auto.
    intros gs0 _. apply no_duplicate_dirs_save.
Qed.

Lemma directories_created_once_witness :
  NoDup (fs_dirs (world_of accumulating_run)).
Proof.
  apply (proj2 (directories_created_once (sample_externals 3 16 4 0) 0
                  (host 1 0 1) (sample_args 0 (-1) 2 2 F64.one true) 0
                  world0 (world_of accumulating_run) (NoDup_nil dir))).
  vm_compute. reflexivity.
Defined.

(** X14. [train] only saves on its save points: every directory and
    every file that a run adds belongs to a step that is a multiple
    of a positive [save_steps], on a process whose rank is 0 or -1. *)
Theorem train_saves_on_save_points_only x fuel env args w w' :
  final_world (train x fuel env args w) = Some w' ->
  (forall d, In d (fs_dirs w') ->
             In d (fs_dirs w) \/ save_point args (snd d)) /\
  (forall f, In f (fs_files w') ->
             In f (fs_files w) \/ save_point args (snd (fst f))).
Proof.
  intros Hrun.
  set (I := fun w0 : world =>
              Forall (fun d => In d (fs_dirs w) \/ save_point args (snd d))
                     (fs_dirs w0) /\
              Forall (fun f => In f (fs_files w) \/ save_point args (snd (fst f)))
                     (fs_files w0)).
  assert (HI : I w').
  { apply (guarded_train I x fuel env args) with (w := w);
      [ | | | | exact Hrun].
    - intros w0 e H. exact H.
    - intros w0 H. exact H.
    - intros gs Hgs. apply saving_checkpoint.
      + intros w0 k _ _ [Hd Hf]. split; [ | exact Hf].
        simpl. constructor; [right; exact Hgs | exact Hd].
      + intros w0 k name [Hd Hf]. split; [exact Hd | ].
        simpl. constructor; [right; exact Hgs | exact Hf].
      + intros w0 H. exact H.
      + intros w0 n H. exact H.
    - split; apply Forall_forall; intros; left; assumption. }
  destruct HI as [Hd Hf]. rewrite Forall_forall in Hd, Hf. auto.
Qed.

Lemma train_saves_on_save_points_only_witness :
  (forall d, In d (fs_dirs (world_of accumulating_run)) ->
             In d (fs_dirs world0) \/
             save_point (sample_args 0 (-1) 2 2 F64.one true) (snd d)) /\
  (forall f, In f (fs_files (world_of accumulating_run)) ->
             In f (fs_files world0) \/
             save_point (sample_args 0 (-1) 2 2 F64.one true) (snd (fst f))).
Proof.
  apply (train_saves_on_save_points_only (sample_externals 3 16 4 0) 0
           (host 1 0 1) (sample_args 0 (-1) 2 2 F64.one true) world0).
  vm_compute. reflexivity.
Defined.

(** ** The shape of one batch *)

Lemma save_artifact_raises x fuel philly k gs w e w' :
  save_artifact x fuel philly k gs w = Fail e w' ->
  e = StorageError /\ philly = false.
Proof.
  unfold save_artifact. destruct philly.
  - intros H. exfalso. exact (while_not_solid_never_fails _ _ _ _ _ _ H).
  - unfold bind, attempt, save_pretrained, torch_save, storage_write, bind,
      when, ret.
    destruct k; simpl;
      repeat match goal with
             | |- context [faulty x ?n] => destruct (faulty x n); simpl
             end;
      intros H; inversion H; auto.
Qed.

Lemma save_checkpoint_raises x fuel args gs w e w' :
  save_checkpoint x fuel args gs w = Fail e w' ->
  e = StorageError /\ use_philly args = false.
Proof.
  unfold save_checkpoint.
  destruct (ensure_dir_never_fails args (artifact_dir Encoder gs) w)
    as (w1 & H1 & _).
  unfold bind at 1. rewrite H1.
  destruct (ensure_dir_never_fails args (artifact_dir Decoder gs) w1)
    as (w2 & H2 & _).
  unfold bind at 1. rewrite H2.
  unfold bind at 1.
  destruct (save_artifact x fuel (use_philly args) Encoder gs w2)
    as [n3 w3|e3 w3|] eqn:H3;
    [ | intros H; inversion H; subst; eapply save_artifact_raises; eauto
      | discriminate].
  unfold bind at 1.
  destruct (save_artifact x fuel (use_philly args) Decoder gs w3)
    as [n4 w4|e4 w4|] eqn:H4;
    [ | intros H; inversion H; subst; eapply save_artifact_raises; eauto
      | discriminate].
  destruct (ensure_dir_never_fails args (artifact_dir Full gs) w4)
    as (w5 & H5 & _).
  unfold bind at 1. rewrite H5.
  unfold bind at 1.
  destruct (save_artifact x fuel (use_philly args) Full gs w5)
    as [n6 w6|e6 w6|] eqn:H6;
    [discriminate
    | intros H; inversion H; subst; eapply save_artifact_raises; eauto
    | discriminate].
Qed.

Section BatchShape.
Variable I : world -> Prop.
Variable x : externals.
Variable fuel : nat.
Variable args : Args.

Hypothesis I_fs : fs_blind I.
Hypothesis I_after :
  forall w e, after_forward_event e -> I w -> I (log_event w e).

Lemma shape_optimizer_boundary p l w :
  I w ->
  sat (fun l' w' => I w' /\ global_step l' = global_step l + 1)
      (fun e w' => I w' /\ e = StorageError /\ use_philly args = false)
      (optimizer_boundary x fuel args p l w).
Proof.
  intros Hw. unfold optimizer_boundary.
  repeat (apply sat_bind, sat_emit).
  set (w4 := log_event _ (ZeroGrad (Some p))).
  assert (H4 : I w4) by (unfold w4; repeat apply I_after; simpl; auto).
  clearbody w4. clear Hw w.
  apply sat_bind.
  apply sat_mono with (Q := fun _ => I) (E := fun _ _ => False);
    [ | | contradiction].
  - destruct (_ && _ && _); [ | exact H4].
    apply sat_bind, sat_when; [intros _; apply sat_emit | intros _];
      apply sat_bind, sat_emit; simpl; repeat apply I_after; simpl; auto.
  - intros ll w5 H5. apply sat_bind.
    destruct (in_minus1_0 (local_rank args) && (0 <? save_steps args)
              && ((global_step l + 1) mod save_steps args =? 0));
      [ | simpl; auto].
    cbn [when].
    pose proof (keeps_save_checkpoint I x fuel args (global_step l + 1)
                  I_fs (fun w n => I_after w (SaveAttemptLogged n) Logic.I)
                  w5 H5) as Hk.
    pose proof (save_checkpoint_raises x fuel args (global_step l + 1) w5) as Hr.
    destruct (save_checkpoint x fuel args (global_step l + 1) w5)
      as [[] w6|e w6|]; simpl in *; auto.
    split; [exact Hk | eapply Hr; reflexivity].
Qed.

Lemma train_batch_shape sched n_iter p l w :
  (forall b, schedule_gate args sched (global_step l) (beta_t l) = Ok b ->
             has_module x = true ->
             I (count_forward
                  (log_event w (Forward p (global_step l) b (fb_mode_of args b))))) ->
  sat (fun r w' => I w' /\ batch_result args p l r)
      (fun e w' => batch_error x args sched l e /\ (I w' \/ w' = w))
      (train_batch x fuel args sched n_iter p l w).
Proof.
  intros Hfwd. unfold train_batch, batch_error.
  apply sat_bind, sat_lift.
  destruct (schedule_gate args sched (global_step l) (beta_t l)) as [b|e] eqn:G;
    [ | split; auto].
  apply sat_bind.
  destruct (has_module x) eqn:Hm; cbn [negb when raise ret sat];
    [ | split; auto].
  apply sat_bind. unfold forward_call. cbn [sat].
  generalize (loss_item x (forwards w)); intros loss.
  specialize (Hfwd b eq_refl eq_refl).
  match goal with |- sat _ _ (_ ?w1) => set (w1' := w1) in * end.
  clearbody w1'.
  apply sat_bind.
  apply sat_mono with (Q := fun _ => I)
                      (E := fun e w' => e = ZeroDivisionError /\ I w');
    [ | | intros e w' [-> Hw']; split; auto].
  { apply sat_when; auto. intros _. apply sat_bind, sat_emit.
    apply sat_when; intros _; simpl; [split; auto | ];
      apply I_after; simpl; auto. }
  intros u w2 H2. apply sat_bind, sat_emit.
  assert (H3 : I (log_event w2 (Backward p))) by (apply I_after; simpl; auto).
  apply sat_bind.
  destruct (gradient_accumulation_steps args =? 0) eqn:Hgas;
    cbn [when raise ret sat]; [split; auto | ].
  apply Z.eqb_neq in Hgas.
  apply sat_bind. fold (boundary args p).
  unfold batch_result.
  destruct (boundary args p) eqn:Hb.
  - eapply sat_mono; [apply shape_optimizer_boundary, H3 | | ].
    + intros l2 w3 [Hw3 Hgs]. simpl in *. repeat split; auto.
    + intros e w3 (Hw3 & -> & Hp). split; auto.
  - simpl. repeat split; auto. lia.
Qed.

End BatchShape.

(** ** Loops that know where they are and why they stop *)

Lemma batch_loop_sat_brk (Jx : Z -> locals -> world -> Prop)
    (Jend : locals -> world -> Prop) (JE : exn -> world -> Prop) body n :
  (forall s l w, Jx s l w -> Jend l w) ->
  forall step0 l w,
  (forall step l w, step0 <= step -> Jx step l w ->
     sat (fun (r : locals * bool) w' =>
            if snd r then Jend (fst r) w' else Jx (step + 1) (fst r) w')
         JE (body step l w)) ->
  Jx step0 l w -> sat Jend JE (batch_loop n step0 body l w).
Proof.
  intros Hend. induction n as [|n IH]; intros step0 l w Hb Hl; simpl.
  - apply (Hend step0), Hl.
  - apply sat_bind. eapply sat_mono; [apply Hb; [lia | exact Hl] | | auto].
    intros [l' brk] w' Hl'; simpl in *.
    destruct brk; [exact Hl' | apply IH; auto].
    intros step l2 w2 Hstep. apply Hb. lia.
Qed.

Lemma train_loops_sat_pro (J : locals -> world -> Prop)
    (JE : exn -> world -> Prop) x fuel env args :
  (forall e w, prologue_error env x args e -> J locals0 w -> JE e w) ->
  (forall l w ev, structural x ev -> J l w -> J l (log_event w ev)) ->
  (forall sched n_iter ep i l w,
     schedule_of x env args = Ok sched -> (i + 1 < num_files x)%nat ->
     J l w -> sat J JE (train_file x fuel args sched n_iter ep i l w)) ->
  forall w, J locals0 w -> sat J JE (train_loops x fuel env args w).
Proof.
  intros J_pro J_structural J_file w H0. unfold train_loops.
  assert (Hrest : forall w', J locals0 w' ->
    sat J JE
      ((plan <- lift (plan_epochs env x args);;
        emit (ZeroGrad None);;;
        n_epochs <- lift (py_int (fst plan));;
        n_iter <- lift (estimate_n_iter x args (fst plan));;
        for_each (seq 0 (Z.to_nat n_epochs))
          (train_epoch x fuel args
             (frange_cycle_zero_linear x n_iter F64.zero (beta args) 10
                (ratio_increase args) (ratio_zero args)) n_iter)
          locals0) w')).
  { intros w' Hw'. apply sat_bind, sat_lift.
    destruct (plan_epochs env x args) as [plan|e] eqn:Hplan;
      [ | apply J_pro; [left; exact Hplan | exact Hw']].
    apply sat_bind, sat_emit.
    assert (Hz : J locals0 (log_event w' (ZeroGrad None)))
      by (apply J_structural; simpl; auto).
    apply sat_bind, sat_lift.
    destruct (py_int (fst plan)) as [n_epochs|e] eqn:Hint;
      [ | apply J_pro; [right; exists plan; split; [exact Hplan | left; exact Hint]
                       | exact Hz]].
    apply sat_bind, sat_lift.
    destruct (estimate_n_iter x args (fst plan)) as [n_iter|e] eqn:Hn;
      [ | apply J_pro; [right; exists plan; split; [exact Hplan | right; exact Hn]
                       | exact Hz]].
    apply for_each_sat; auto.
    intros ep l w1 _ Hl.
    apply (train_epoch_sat J JE x fuel env args); auto.
    unfold schedule_of. rewrite Hplan, Hn. reflexivity. }
  apply sat_bind. destruct (in_minus1_0 (local_rank args)); simpl.
  - apply Hrest. apply (J_structural locals0 w TbWriterOpen); simpl; auto.
  - apply Hrest, H0.
Qed.

(** ** After the step bound *)

Lemma first_batch_log args w e :
  first_batch_when_past args e ->
  Forall (first_batch_when_past args) (trace w) ->
  Forall (first_batch_when_past args) (trace (log_event w e)).
Proof. intros He Hw. simpl. apply Forall_snoc; auto. Qed.

Lemma first_batch_train_file x fuel args sched n_iter ep i l w :
  Forall (first_batch_when_past args) (trace w) ->
  sat (fun _ w' => Forall (first_batch_when_past args) (trace w'))
      (fun _ w' => Forall (first_batch_when_past args) (trace w'))
      (train_file x fuel args sched n_iter ep i l w).
Proof.
  intros Hw. unfold train_file. apply sat_bind, sat_emit.
  apply (batch_loop_sat_brk
           (fun s l0 w0 =>
              Forall (first_batch_when_past args) (trace w0) /\
              (0 < s -> past_max_steps args (global_step l0) = false))
           (fun _ w0 => Forall (first_batch_when_past args) (trace w0))).
  - intros s l0 w0 [H _]. exact H.
  - intros s l0 w0 Hs [H0 Hpast].
    eapply sat_mono;
      [apply (train_batch_shape
                (fun w1 => Forall (first_batch_when_past args) (trace w1)))
      | | ].
    + intros w1 ds fs n H. exact H.
    + intros w1 e He H. apply first_batch_log; [ | exact H].
      destruct e; simpl in He; try contradiction; exact Logic.I.
    + intros b _ _. simpl. apply Forall_snoc; [exact H0 | ].
      simpl. intros Hp.
      destruct (Z.eq_dec s 0) as [-> | Hne]; [reflexivity | ].
      rewrite Hpast in Hp by lia. discriminate.
    + intros [l1 brk] w1 [H1 (Hbrk & _ & _)]. simpl in *.
      destruct brk; [exact H1 | ].
      split; [exact H1 | ]. intros _. symmetry. exact Hbrk.
    + intros e w1 [_ [H1 | ->]]; [exact H1 | exact H0].
  - split; [ | lia]. apply first_batch_log; [exact Logic.I | exact Hw].
Qed.

(** X15. The [break] of line 644 bounds the overrun of [max_steps]
    file by file: once [global_step] has passed a positive
    [max_steps], every later turn of the file loop makes one forward
    call and leaves, so every forward call made at such a step counter
    is on the first batch of its file. *)
Theorem past_max_steps_one_batch_per_file x fuel env args w w' :
  Forall (first_batch_when_past args) (trace w) ->
  final_world (train x fuel env args w) = Some w' ->
  Forall (first_batch_when_past args) (trace w').
Proof.
  intros Hw Hrun. apply train_final_world in Hrun.
  apply (sat_final (fun w0 => Forall (first_batch_when_past args) (trace w0))
                   (train_loops x fuel env args w) w'); [ | exact Hrun].
  apply (train_loops_sat_files
           (fun _ w0 => Forall (first_batch_when_past args) (trace w0))
           (fun _ w0 => Forall (first_batch_when_past args) (trace w0))).
  - intros l0 w0 e H. exact H.
  - intros l0 w0 ev Hev H. apply first_batch_log; [ | exact H].
    destruct ev; simpl in Hev; try contradiction; exact Logic.I.
  - intros sched n_iter ep i l0 w0 _ _ H.
    apply first_batch_train_file, H.
  - exact Hw.
Qed.

Lemma past_max_steps_one_batch_per_file_witness :
  Forall (first_batch_when_past (sample_args 1 2 1 1 F64.one true))
         (trace (world_of capped_run)).
Proof.
  apply (past_max_steps_one_batch_per_file (sample_externals 3 8 2 0) 0
           (host 1 0 1) (sample_args 1 2 1 1 F64.one true) world0).
  - constructor.
  - vm_compute. reflexivity.
Defined.

Lemma plan_epochs_bounded env x args f :
  0 < max_steps args ->
  plan_epochs env x (with_num_train_epochs args f) = plan_epochs env x args.
Proof.
  intros Hmax. unfold plan_epochs. cbn [with_num_train_epochs max_steps
    gradient_accumulation_steps distributed num_train_epochs].
  apply Z.ltb_lt in Hmax. rewrite Hmax. reflexivity.
Qed.

(** X16. With a positive [max_steps] the option [--num_train_epochs]
    is never read: line 393 overwrites it before its first use, so
    [train] does the same whatever its value. *)
Theorem max_steps_overrides_num_train_epochs x fuel env args f w :
  0 < max_steps args ->
  train x fuel env (with_num_train_epochs args f) w = train x fuel env args w.
Proof.
  intros Hmax. unfold train, train_loops.
  rewrite (plan_epochs_bounded env x args f Hmax).
  reflexivity.
Qed.

Lemma max_steps_overrides_num_train_epochs_witness :
  train (sample_externals 3 8 2 0) 0 (host 1 0 1)
        (with_num_train_epochs (sample_args 1 2 1 1 F64.one true) (F64.of_Z 40))
        world0 = capped_run.
Proof.
  apply (max_steps_overrides_num_train_epochs (sample_externals 3 8 2 0) 0
           (host 1 0 1) (sample_args 1 2 1 1 F64.one true) (F64.of_Z 40) world0).
  reflexivity.
Defined.

(** ** What [train] can raise *)

Lemma to_int_raises f e :
  F64.to_int f = Raise e -> e = ValueError \/ e = OverflowError.
Proof.
  destruct f; simpl; intros H; inversion H; auto.
Qed.

Lemma plan_epochs_raises env x args e :
  plan_epochs env x args = Raise e -> e = ZeroDivisionError.
Proof.
  unfold plan_epochs.
  destruct (gradient_accumulation_steps args =? 0); [congruence | ].
  destruct (0 <? max_steps args).
  - destruct (_ =? 0); [congruence | ].
    destruct (distributed args); [ | discriminate].
    destruct (ompi_size env =? 0); [congruence | discriminate].
  - destruct (distributed args); [ | discriminate].
    destruct (ompi_size env =? 0); [congruence | discriminate].
Qed.

Lemma prologue_raises env x args e :
  prologue_error env x args e -> train_error x args e.
Proof.
  unfold train_error.
  intros [H | (plan & _ & [H | H])].
  - left. eapply plan_epochs_raises, H.
  - destruct (fst plan); simpl in H; [discriminate | ].
    apply to_int_raises in H. tauto.
  - unfold estimate_n_iter in H.
    destruct (_ =? 0); [left; congruence | ].
    apply to_int_raises in H. tauto.
Qed.

Lemma train_loops_raises x fuel env args w :
  sat (fun l _ => 0 <= global_step l) (fun e _ => train_error x args e)
      (train_loops x fuel env args w).
Proof.
  apply (train_loops_sat_pro (fun l _ => 0 <= global_step l)
           (fun e _ => train_error x args e)).
  - intros e w0 H _. apply prologue_raises in H. exact H.
  - intros l w0 ev _ H. exact H.
  - intros sched n_iter ep i l w0 _ _ Hl. unfold train_file.
    apply sat_bind, sat_emit.
    apply (batch_loop_sat (fun l _ => 0 <= global_step l)
             (fun e _ => train_error x args e)); [ | exact Hl].
    intros s l1 w1 _ H1.
    eapply sat_mono;
      [apply (train_batch_shape (fun _ => True)); auto | | ].
    + intros w2 ds fs n _. exact Logic.I.
    + intros [l2 brk] w2 [_ (_ & _ & Hgs)]. simpl in *.
      rewrite Hgs. destruct (boundary args _); simpl; lia.
    + intros e w2 [Hb _]. unfold train_error.
      destruct Hb as [Hg | [Ha | [Hz | Hs]]]; auto.
      destruct (schedule_gate_total args sched (global_step l1) (beta_t l1) H1)
        as [b Hb].
      congruence.
  - simpl. lia.
Qed.



(** * Masking *)

Lemma nth_error_combine {A B} (a : list A) (b : list B) i u v :
  nth_error a i = Some u -> nth_error b i = Some v ->
  nth_error (combine a b) i = Some (u, v).
Proof.
  revert b i. induction a as [|a0 a IH]; intros [|b0 b] [|i]; simpl;
    try discriminate; auto.
  intros Hu Hv. inversion Hu; inversion Hv; reflexivity.
Qed.

Lemma nth_error_seq_lt s n i :
  (i < n)%nat -> nth_error (seq s n) i = Some (s + i)%nat.
Proof.
  revert s i. induction n as [|n IH]; intros s [|i] H; simpl; try lia.
  - f_equal. lia.
  - rewrite IH by lia. f_equal. lia.
Qed.

Lemma nth_error_zip {A B C} (f : A * B -> C) a b i u v :
  nth_error a i = Some u -> nth_error b i = Some v ->
  nth_error (map f (combine a b)) i = Some (f (u, v)).
Proof.
  intros Hu Hv. apply map_nth_error, nth_error_combine; auto.
Qed.

Lemma nth_error_bernoulli draw n i :
  (i < n)%nat ->
  nth_error (Tensor.bernoulli draw n) i = Some (Tensor.uint8 (draw i)).
Proof.
  intros H. unfold Tensor.bernoulli.
  rewrite (map_nth_error _ i (seq 0 n) (nth_error_seq_lt 0 n i H)).
  reflexivity.
Qed.

Lemma length_zip {A B C} (f : A * B -> C) a b :
  List.length b = List.length a ->
  List.length (map f (combine a b)) = List.length a.
Proof.
  intros H. rewrite length_map, length_combine. lia.
Qed.

Lemma length_bernoulli draw n : List.length (Tensor.bernoulli draw n) = n.
Proof. unfold Tensor.bernoulli. rewrite length_map, length_seq. reflexivity. Qed.

(** Writing back what was selected under one mask never fails, and is
    an elementwise choice. *)
Lemma scatter_select xs : forall mask ys,
  List.length mask = List.length xs -> List.length ys = List.length xs ->
  Tensor.masked_scatter xs mask (Tensor.masked_select ys mask) =
  Some (map (fun p => if snd (fst p) =? 0 then fst (fst p) else snd p)
            (combine (combine xs mask) ys)).
Proof.
  induction xs as [|x xs IH]; intros [|m mask] [|y ys] Hm Hy;
    simpl in *; try discriminate; try reflexivity.
  destruct (m =? 0); simpl; rewrite IH by lia; reflexivity.
Qed.

(** X18. [mask_tokens] never fails on a shape, keeps the shape of its
    input, and works position by position: a position that the first
    draw leaves alone keeps its token, which is also its label; a
    position that the first draw selects gets the label -1, and its
    token becomes the mask token when the second draw says so,
    otherwise a random word when the third draw says so, otherwise
    stays.  So the labels that line 258 overwrites with -1 are those
    of the selected positions, the only ones whose token can
    change. *)
Theorem mask_tokens_by_position rnd mask_token inputs :
  exists inputs' labels,
    mask_tokens rnd mask_token inputs = Some (inputs', labels) /\
    List.length inputs' = List.length inputs /\
    List.length labels = List.length inputs /\
    forall i t, nth_error inputs i = Some t ->
      nth_error inputs' i = Some (masked_token rnd mask_token i t) /\
      nth_error labels i = Some (masked_label rnd i t).
Proof.
  unfold mask_tokens.
  set (n := List.length inputs).
  set (masked := Tensor.bernoulli (mlm_draw rnd) n).
  set (replaced := Tensor.band (Tensor.bernoulli (replace_draw rnd) n) masked).
  set (random :=
         Tensor.band (Tensor.band (Tensor.bernoulli (random_draw rnd) n) masked)
                     (Tensor.bnot replaced)).
  set (inputs1 := Tensor.masked_fill inputs replaced mask_token).
  assert (Lmasked : List.length masked = n) by apply length_bernoulli.
  assert (Lreplaced : List.length replaced = n).
  { unfold replaced, Tensor.band. rewrite length_zip; rewrite length_bernoulli;
      auto. }
  assert (Linputs1 : List.length inputs1 = n).
  { unfold inputs1, Tensor.masked_fill. rewrite length_zip; auto. }
  assert (Lrandom : List.length random = n).
  { unfold random, Tensor.band, Tensor.bnot.
    rewrite length_zip; rewrite length_zip; rewrite ?length_bernoulli,
      ?length_map; auto. }
  rewrite scatter_select
    by (rewrite ?length_map, ?length_seq; congruence).
  eexists _, _. split; [reflexivity | ].
  split; [ | split].
  - rewrite length_map, !length_combine, length_map, length_seq.
    rewrite Linputs1, Lrandom, !Nat.min_id. reflexivity.
  - unfold Tensor.masked_fill, Tensor.eq_scalar.
    rewrite length_map, length_combine, length_map, Lmasked.
    apply Nat.min_id.
  - intros i t Ht.
    assert (Hi : (i < n)%nat) by (apply nth_error_Some; congruence).
    assert (Hmasked : nth_error masked i = Some (Tensor.uint8 (mlm_draw rnd i)))
      by (apply nth_error_bernoulli, Hi).
    assert (Hreplaced :
              nth_error replaced i =
              Some (Z.land (Tensor.uint8 (replace_draw rnd i))
                           (Tensor.uint8 (mlm_draw rnd i)))).
    { unfold replaced, Tensor.band.
      rewrite (nth_error_zip _ _ _ i _ _ (nth_error_bernoulli _ n i Hi) Hmasked).
      reflexivity. }
    assert (Hinputs1 :
              nth_error inputs1 i =
              Some (if Z.land (Tensor.uint8 (replace_draw rnd i))
                              (Tensor.uint8 (mlm_draw rnd i)) =? 0
                    then t else mask_token)).
    { unfold inputs1, Tensor.masked_fill.
      rewrite (nth_error_zip _ _ _ i _ _ Ht Hreplaced). reflexivity. }
    assert (Hrandom :
              nth_error random i =
              Some (Z.land
                      (Z.land (Tensor.uint8 (random_draw rnd i))
                              (Tensor.uint8 (mlm_draw rnd i)))
                      (Z.lnot (Z.land (Tensor.uint8 (replace_draw rnd i))
                                      (Tensor.uint8 (mlm_draw rnd i))) mod 256))).
    { unfold random, Tensor.band at 1.
      erewrite nth_error_zip; [reflexivity | | ].
      - unfold Tensor.band.
        rewrite (nth_error_zip _ _ _ i _ _ (nth_error_bernoulli _ n i Hi) Hmasked).
        reflexivity.
      - unfold Tensor.bnot. rewrite (map_nth_error _ i replaced Hreplaced).
        reflexivity. }
    split.
    + erewrite nth_error_zip;
        [ | apply nth_error_combine; [exact Hinputs1 | exact Hrandom]
          | apply map_nth_error, nth_error_seq_lt, Hi ].
      unfold masked_token. simpl.
      destruct (mlm_draw rnd i), (replace_draw rnd i), (random_draw rnd i);
        reflexivity.
    + unfold Tensor.masked_fill, Tensor.eq_scalar.
      erewrite nth_error_zip;
        [ | exact Ht | apply map_nth_error, Hmasked ].
      unfold masked_label. simpl. destruct (mlm_draw rnd i); reflexivity.
Qed.

Lemma mask_tokens_by_position_witness :
  exists inputs' labels,
    mask_tokens sample_randomness 103 [7; 8; 9; 10; 11] =
      Some (inputs', labels) /\
    nth_error inputs' 2 = Some 1002 /\ nth_error labels 2 = Some (-1).
Proof.
  destruct (mask_tokens_by_position sample_randomness 103 [7; 8; 9; 10; 11])
    as (inputs' & labels & Hrun & _ & _ & Hpos).
  exists inputs', labels. split; [exact Hrun | ].
  apply (Hpos 2%nat 9). reflexivity.
Defined.

(** * Every save point is saved *)

Lemma sat_conj {A} (Q1 Q2 : A -> world -> Prop) (E1 E2 : exn -> world -> Prop) o :
  sat Q1 E1 o -> sat Q2 E2 o ->
  sat (fun a w => Q1 a w /\ Q2 a w) (fun e w => E1 e w /\ E2 e w) o.
Proof. destruct o; simpl; auto. Qed.

Lemma attempt_done x philly k gs n w :
  sat (fun _ w' => incl (artifact_files philly k gs) (fs_files w'))
      (fun _ _ => True) (attempt x philly k gs n w).
Proof.
  unfold attempt, save_pretrained, torch_save, storage_write, bind, when,
    emit, ret.
  destruct k, philly; simpl;
    repeat match goal with
           | |- context [faulty x ?n] => destruct (faulty x n); simpl
           end;
    auto; intros f Hf; simpl in Hf; simpl; tauto.
Qed.

Lemma while_not_solid_done x philly k gs fuel : forall n w,
  sat (fun _ w' => incl (artifact_files philly k gs) (fs_files w'))
      (fun _ _ => True)
      (while_not_solid fuel n (attempt x philly k gs) w).
Proof.
  induction fuel as [|fuel IH]; intros n w; simpl; [exact Logic.I | ].
  unfold bind, try_pass.
  pose proof (attempt_done x philly k gs (n + 1) w) as H.
  destruct (attempt x philly k gs (n + 1) w) as [[] w1|e w1|]; simpl in *;
    [exact H | apply IH | exact Logic.I].
Qed.

Lemma save_artifact_done x fuel philly k gs w :
  sat (fun _ w' => incl (artifact_files philly k gs) (fs_files w'))
      (fun _ _ => True) (save_artifact x fuel philly k gs w).
Proof.
  unfold save_artifact. destruct philly.
  - apply while_not_solid_done.
  - apply sat_bind. eapply sat_mono; [apply attempt_done | | auto].
    intros u w1 H. exact H.
Qed.

Lemma files_kept_by_save_artifact F x fuel philly k gs :
  keeps (fun w => incl F (fs_files w)) (save_artifact x fuel philly k gs).
Proof.
  apply saving_artifact.
  - intros w k0 name H f Hf. simpl. right. apply H, Hf.
  - intros w H. exact H.
  - intros w n H. exact H.
Qed.

Lemma files_kept_by_ensure_dir F args k gs :
  keeps (fun w => incl F (fs_files w)) (ensure_dir args (artifact_dir k gs)).
Proof.
  apply saving_ensure_dir. intros w k0 _ _ H. exact H.
Qed.

Lemma files_kept_by_save_checkpoint x fuel args gs w :
  sat (fun _ w' => forall f, In f (fs_files w) -> In f (fs_files w'))
      (fun _ _ => True) (save_checkpoint x fuel args gs w).
Proof.
  eapply sat_mono;
    [apply (saving_checkpoint (fun w' => incl (fs_files w) (fs_files w')))
    | | auto].
  - intros w0 k _ _ H. exact H.
  - intros w0 k name H f Hf. simpl. right. apply H, Hf.
  - intros w0 H. exact H.
  - intros w0 n H. exact H.
  - apply incl_refl.
  - intros u w1 H. exact H.
Qed.

(** A save that completes has left all five files. *)
Lemma save_checkpoint_done x fuel args gs w :
  sat (fun _ w' => saved (use_philly args) gs w') (fun _ _ => True)
      (save_checkpoint x fuel args gs w).
Proof.
  unfold save_checkpoint, saved, checkpoint_files.
  set (ph := use_philly args).
  apply sat_bind.
  apply sat_mono with (Q := fun _ _ => True) (E := fun _ _ => True); auto;
    [destruct (ensure_dir _ _ w); exact Logic.I | ].
  intros _ w1 _. apply sat_bind.
  apply sat_mono with (Q := fun _ _ => True) (E := fun _ _ => True); auto;
    [destruct (ensure_dir _ _ w1); exact Logic.I | ].
  intros _ w2 _. apply sat_bind.
  eapply sat_mono; [apply (save_artifact_done x fuel ph Encoder gs w2) | | auto].
  intros n3 w3 H3. apply sat_bind.
  eapply sat_mono;
    [apply (sat_conj _ _ _ _ _
              (save_artifact_done x fuel ph Decoder gs w3)
              (files_kept_by_save_artifact _ x fuel ph Decoder gs w3 H3))
    | | auto].
  intros n4 w4 [H4 H3']. apply sat_bind.
  eapply sat_mono;
    [apply (sat_conj _ _ _ _ _
              (files_kept_by_ensure_dir _ args Full gs w4 H3')
              (files_kept_by_ensure_dir _ args Full gs w4 H4))
    | | auto].
  intros u5 w5 [H3'' H4']. apply sat_bind.
  eapply sat_mono;
    [apply (sat_conj _ _ _ _ _
              (save_artifact_done x fuel ph Full gs w5)
              (sat_conj _ _ _ _ _
                 (files_kept_by_save_artifact _ x fuel ph Full gs w5 H4')
                 (files_kept_by_save_artifact _ x fuel ph Full gs w5 H3'')))
    | | auto].
  intros n6 w6 (H6 & H4'' & H3'''). unfold ret. cbn [sat].
  apply incl_app; [exact H6 | apply incl_app; assumption].
Qed.

Section SavedSoFar.
Variable x : externals.
Variable fuel : nat.
Variable args : Args.

Hypothesis coordinator : in_minus1_0 (local_rank args) = true.
Hypothesis saving : 0 < save_steps args.

(** Every save point up to the step counter has its checkpoint. *)
Let saved_so_far (l : locals) (w : world) : Prop :=
  0 <= global_step l /\
  forall k, 0 < k <= global_step l -> k mod save_steps args = 0 ->
            saved (use_philly args) k w.

Lemma saved_so_far_same_files l w w' :
  fs_files w' = fs_files w -> saved_so_far l w -> saved_so_far l w'.
Proof.
  unfold saved_so_far, saved. intros Hf [H0 H]. rewrite Hf. auto.
Qed.

Lemma saved_optimizer_boundary p l w :
  saved_so_far l w ->
  sat saved_so_far (fun _ _ => True) (optimizer_boundary x fuel args p l w).
Proof.
  intros Hl. unfold optimizer_boundary.
  repeat (apply sat_bind, sat_emit).
  set (w4 := log_event _ (ZeroGrad (Some p))).
  assert (H4 : saved_so_far l w4)
    by (apply (saved_so_far_same_files l w); [reflexivity | exact Hl]).
  clearbody w4. clear Hl w.
  apply sat_bind.
  apply sat_mono with (Q := fun _ w5 => saved_so_far l w5)
                      (E := fun _ _ => True); auto.
  { destruct (_ && _ && _); [ | exact H4].
    apply sat_bind, sat_when; [intros _; apply sat_emit | intros _];
      apply sat_bind, sat_emit; simpl;
      apply (saved_so_far_same_files l w4); auto. }
  intros ll w5 H5. apply sat_bind.
  rewrite coordinator. apply Z.ltb_lt in saving as Hpos. rewrite Hpos.
  cbn [andb].
  destruct H5 as [H0 H5].
  destruct ((global_step l + 1) mod save_steps args =? 0) eqn:Hmod;
    cbn [when].
  - pose proof (save_checkpoint_done x fuel args (global_step l + 1) w5) as Hd.
    pose proof (files_kept_by_save_checkpoint x fuel args (global_step l + 1)
                  w5) as Hk.
    destruct (save_checkpoint x fuel args (global_step l + 1) w5)
      as [[] w6|e w6|]; simpl in *; auto.
    unfold saved_so_far. cbn [global_step].
    split; [lia | ]. intros k Hk1 Hk2.
    destruct (Z.eq_dec k (global_step l + 1)) as [-> | Hne]; [exact Hd | ].
    unfold saved. intros f Hf. apply Hk. apply (H5 k); auto. lia.
  - simpl. unfold saved_so_far. cbn [global_step].
    split; [lia | ]. intros k Hk1 Hk2.
    apply Z.eqb_neq in Hmod.
    apply H5; auto.
    destruct (Z.eq_dec k (global_step l + 1)) as [-> | Hne];
      [contradiction | lia].
Qed.

Lemma saved_train_batch sched n_iter p l w :
  saved_so_far l w ->
  sat (fun r w' => saved_so_far (fst r) w') (fun _ _ => True)
      (train_batch x fuel args sched n_iter p l w).
Proof.
  intros Hl. unfold train_batch.
  apply sat_bind, sat_lift.
  destruct (schedule_gate args sched (global_step l) (beta_t l)) as [b|e];
    [ | exact Logic.I].
  apply sat_bind. destruct (has_module x); cbn [negb when raise ret sat];
    [ | exact Logic.I].
  apply sat_bind. unfold forward_call. cbn [sat].
  generalize (loss_item x (forwards w)); intros loss.
  match goal with |- sat _ _ (_ ?w1) => set (w1' := w1) in * end.
  assert (H1 : saved_so_far l w1')
    by (apply (saved_so_far_same_files l w); [reflexivity | exact Hl]).
  clearbody w1'. clear Hl w.
  apply sat_bind.
  apply sat_mono with (Q := fun _ w2 => saved_so_far l w2)
                      (E := fun _ _ => True); auto.
  { apply sat_when; auto. intros _. apply sat_bind, sat_emit.
    apply sat_when; intros _; simpl; auto;
      apply (saved_so_far_same_files l w1'); auto. }
  intros u w2 H2. apply sat_bind, sat_emit.
  assert (H3 : saved_so_far l (log_event w2 (Backward p)))
    by (apply (saved_so_far_same_files l w2); auto).
  apply sat_bind.
  destruct (gradient_accumulation_steps args =? 0);
    cbn [when raise ret sat]; [exact Logic.I | ].
  apply sat_bind.
  destruct (_ =? 0).
  - eapply sat_mono;
      [apply (saved_optimizer_boundary p
                {| global_step := global_step l;
                   tr_loss := F64.add (tr_loss l) loss;
                   logging_loss := logging_loss l; beta_t := b |}), H3
      | | auto].
    intros l2 w3 H. exact H.
  - simpl. exact H3.
Qed.

Lemma saved_train_loops env w :
  saved_so_far locals0 w ->
  sat saved_so_far (fun _ _ => True) (train_loops x fuel env args w).
Proof.
  intros Hw.
  apply (train_loops_sat saved_so_far (fun _ _ => True)).
  - intros l w0 e _. exact Logic.I.
  - intros l w0 ev _ H. apply (saved_so_far_same_files l w0); auto.
  - intros sched n_iter p l w0 _ _ _ H. apply saved_train_batch, H.
  - exact Hw.
Qed.

End SavedSoFar.

(** X19. On the coordinator and with a positive [save_steps], a run
    of [train] that returns has saved at every save point: for every
    multiple [k] of [save_steps] from 1 up to the step count it
    returns, the five files of the checkpoint of step [k] are on the
    file system when it returns.  In resilient mode that is so however
    many writes the storage refused on the way. *)
Theorem train_saves_at_every_save_point x fuel env args w gs avg w' k :
  in_minus1_0 (local_rank args) = true ->
  0 < save_steps args ->
  train x fuel env args w = Done (gs, avg) w' ->
  0 < k <= gs -> k mod save_steps args = 0 ->
  saved (use_philly args) k w'.
Proof.
  intros Hr Hs Hrun Hk Hmod.
  destruct (train_done_inv _ _ _ _ _ _ _ _ Hrun) as (l & Hloops & Hgs & _).
  pose proof (saved_train_loops x fuel args Hr Hs env w) as Hsat.
  rewrite Hloops in Hsat. simpl in Hsat.
  destruct Hsat as [_ H].
  - split; [simpl; lia | ]. simpl. intros k0 Hk0. lia.
  - apply H; [rewrite Hgs; exact Hk | exact Hmod].
Qed.

Lemma train_saves_at_every_save_point_witness :
  saved true 2 (world_of resilient_run).
Proof.
  apply (train_saves_at_every_save_point (sample_externals 3 16 4 3) 5
           (host 1 0 1) (resilient (sample_args 0 (-1) 2 2 F64.one true))
           world0 8 (snd (value_of resilient_run (0, F64.zero)))
           (world_of resilient_run) 2).
  - reflexivity.
  - reflexivity.
  - vm_compute. reflexivity.
  - lia.
  - reflexivity.
Defined.

(** * The entry point *)

(** X20. A call of [main] that trains and completes leaves the
    checkpoint of the last step: when [--do_train] is set and the
    process has OMPI rank -1 or distributed rank 0, [train] returned
    a step count that is not zero and the five files of the
    checkpoint of that step are on the file system when [main]
    returns, whatever [save_steps] is. *)
Theorem main_leaves_final_checkpoint x fuel env s args w w' :
  do_train s = true ->
  ompi_rank env = -1 \/ dist_rank x = 0 ->
  main x fuel env s args w = Done tt w' ->
  exists gs avg w1,
    train x fuel env (with_local_rank args (ompi_rank env)) w
      = Done (gs, avg) w1 /\
    gs <> 0 /\ saved (use_philly args) gs w'.
Proof.
  intros Ht Hr. unfold main, bind, when, raise, ret, lift.
  destruct (decoder_is_bert_or_roberta s && negb (mlm s)); [discriminate | ].
  destruct (negb (eval_data_file_given s) && do_eval s); [discriminate | ].
  destruct (output_dir_populated s && do_train s
            && negb (overwrite_output_dir s)); [discriminate | ].
  destruct (gpu_indices env true) as [gpus|e]; unfold ret, raise;
    cbn beta iota; [ | discriminate].
  destruct (py_getitem gpus 0) as [g|e]; unfold ret, raise; cbn beta iota;
    [ | discriminate].
  rewrite Ht.
  destruct (train x fuel env (with_local_rank args (ompi_rank env)) w)
    as [[gs avg] w1|e w1|] eqn:Htrain; try discriminate.
  cbn [fst andb local_rank with_local_rank].
  replace ((ompi_rank env =? -1) || (dist_rank x =? 0)) with true
    by (symmetry; apply orb_true_iff;
        destruct Hr as [H | H]; [left | right]; apply Z.eqb_eq, H).
  intros Hsave. exists gs, avg, w1.
  destruct (train_done_inv _ _ _ _ _ _ _ _ Htrain) as (l & _ & _ & Hgs).
  repeat split; auto.
  pose proof (save_checkpoint_done x fuel
                (with_local_rank args (ompi_rank env)) gs w1) as H.
  rewrite Hsave in H. exact H.
Qed.

Lemma main_leaves_final_checkpoint_witness :
  exists gs avg w1,
    train (sample_externals 3 16 4 0) 0 (host 1 0 1)
          (with_local_rank (sample_args 5 (-1) 2 2 F64.one true) 0) world0
      = Done (gs, avg) w1 /\
    gs <> 0 /\
    saved false gs
      (world_of (main (sample_externals 3 16 4 0) 0 (host 1 0 1)
                   {| decoder_is_bert_or_roberta := false; mlm := false;
                      eval_data_file_given := false; do_eval := false;
                      output_dir_populated := false;
                      overwrite_output_dir := false; do_train := true |}
                   (sample_args 5 (-1) 2 2 F64.one true) world0)).
Proof.
  apply (main_leaves_final_checkpoint (sample_externals 3 16 4 0) 0
           (host 1 0 1)
           {| decoder_is_bert_or_roberta := false; mlm := false;
              eval_data_file_given := false; do_eval := false;
              output_dir_populated := false;
              overwrite_output_dir := false; do_train := true |}
           (sample_args 5 (-1) 2 2 F64.one true) world0).
  - reflexivity.
  - right. reflexivity.
  - vm_compute. reflexivity.
Defined.

(** X21. Without [--do_train], [main] makes no training step and
    writes no checkpoint: however it ends, the file system and the
    log of training events are as it found them. *)
Theorem main_without_training_changes_nothing x fuel env s args w w' :
  do_train s = false ->
  final_world (main x fuel env s args w) = Some w' -> w' = w.
Proof.
  intros Ht. unfold main, bind, when, raise, ret, lift.
  rewrite Ht.
  destruct (decoder_is_bert_or_roberta s && negb (mlm s));
    [simpl; congruence | ].
  destruct (negb (eval_data_file_given s) && do_eval s);
    [simpl; congruence | ].
  rewrite andb_false_r. cbn [andb].
  destruct (gpu_indices env true) as [gpus|e]; unfold ret, raise;
    cbn beta iota; [ | simpl; congruence].
  destruct (py_getitem gpus 0) as [g|e]; unfold ret, raise; simpl; congruence.
Qed.

Lemma main_without_training_changes_nothing_witness :
  world_of (main (sample_externals 3 16 4 0) 0 (host 1 0 1)
              {| decoder_is_bert_or_roberta := false; mlm := false;
                 eval_data_file_given := false; do_eval := false;
                 output_dir_populated := true;
                 overwrite_output_dir := false; do_train := false |}
              (sample_args 5 (-1) 2 2 F64.one true) world0) = world0.
Proof.
  apply (main_without_training_changes_nothing (sample_externals 3 16 4 0) 0
           (host 1 0 1)
           {| decoder_is_bert_or_roberta := false; mlm := false;
              eval_data_file_given := false; do_eval := false;
              output_dir_populated := true;
              overwrite_output_dir := false; do_train := false |}
           (sample_args 5 (-1) 2 2 F64.one true) world0).
  - reflexivity.
  - vm_compute. reflexivity.
Defined.

(** * Reporting *)

Section Reporting.
Variable x : externals.
Variable fuel : nat.
Variable args : Args.

Let reported (w : world) : Prop := Forall (report_ok args) (trace w).

Lemma reported_log w e : report_ok args e -> reported w -> reported (log_event w e).
Proof. intros He Hw. unfold reported. simpl. apply Forall_snoc; auto. Qed.

Lemma reported_optimizer_boundary p l :
  keeps reported (optimizer_boundary x fuel args p l).
Proof.
  unfold optimizer_boundary.
  repeat (apply keeps_bind;
          [apply keeps_emit; intros; apply reported_log; simpl; auto
          | intros _]).
  apply keeps_bind.
  - destruct (in_minus1_0 (local_rank args) && (0 <? logging_steps args)
              && ((global_step l + 1) mod logging_steps args =? 0)) eqn:Hg;
      [ | apply keeps_ret].
    apply andb_true_iff in Hg. destruct Hg as [Hg Hmod].
    apply andb_true_iff in Hg. destruct Hg as [Hr Hpos].
    apply Z.ltb_lt in Hpos. apply Z.eqb_eq in Hmod.
    apply keeps_bind.
    + destruct ((local_rank args =? -1) && evaluate_during_training args)
        eqn:He; [ | apply keeps_ret].
      apply andb_true_iff in He. destruct He as [He1 He2].
      apply Z.eqb_eq in He1.
      apply keeps_emit. intros w Hw. apply reported_log; [ | exact Hw].
      simpl. unfold reporting_step. auto.
    + intros _. apply keeps_bind; [ | intros _; apply keeps_ret].
      apply keeps_emit. intros w Hw. apply reported_log; [ | exact Hw].
      simpl. unfold reporting_step. auto.
  - intros ll. apply keeps_bind; [ | intros _; apply keeps_ret].
    apply keeps_when.
    apply (save_checkpoint_trace (Forall (report_ok args))).
    intros tr n H. apply Forall_snoc; simpl; auto.
Qed.

Lemma reported_train_batch sched n_iter p l :
  keeps reported (train_batch x fuel args sched n_iter p l).
Proof.
  unfold train_batch.
  apply keeps_bind; [apply keeps_lift | intros b].
  apply keeps_bind; [apply keeps_when, keeps_raise | intros _].
  apply keeps_bind.
  { intros w Hw. unfold forward_call. simpl.
    apply (reported_log w (Forward p (global_step l) b (fb_mode_of args b)));
      simpl; auto. }
  intros loss.
  apply keeps_bind.
  { destruct (use_philly args && (0 <? logging_steps args)
              && (global_step l mod logging_steps args =? 0)) eqn:Hg;
      [ | apply keeps_ret].
    apply andb_true_iff in Hg. destruct Hg as [Hg Hmod].
    apply andb_true_iff in Hg. destruct Hg as [Hp Hpos].
    apply Z.ltb_lt in Hpos. apply Z.eqb_eq in Hmod.
    apply keeps_bind; [ | intros _; apply keeps_when, keeps_raise].
    apply keeps_emit. intros w Hw. apply reported_log; [ | exact Hw].
    simpl. unfold reporting_step. auto. }
  intros _.
  apply keeps_bind;
    [apply keeps_emit; intros; apply reported_log; simpl; auto | intros _].
  apply keeps_bind; [apply keeps_when, keeps_raise | intros _].
  apply keeps_bind; [ | intros l2; apply keeps_ret].
  destruct (_ =? 0); [apply reported_optimizer_boundary | apply keeps_ret].
Qed.

End Reporting.

(** X22. [train] reports at multiples of a positive [logging_steps]
    only, and each report has its own guard: the progress lines of
    lines 564-584 are written in resilient mode only, for the step
    counter as it is before the batch is counted; the TensorBoard
    scalars of lines 626-633 are written by ranks 0 and -1 only;
    line 620 is reached on rank -1 with [evaluate_during_training]
    only. *)
Theorem train_reports_on_logging_steps_only x fuel env args w w' :
  Forall (report_ok args) (trace w) ->
  final_world (train x fuel env args w) = Some w' ->
  Forall (report_ok args) (trace w').
Proof.
  intros Hw Hrun. apply train_final_world in Hrun.
  apply (sat_final (fun w0 => Forall (report_ok args) (trace w0))
                   (train_loops x fuel env args w) w'); [ | exact Hrun].
  apply (train_loops_sat
           (fun _ w0 => Forall (report_ok args) (trace w0))
           (fun _ w0 => Forall (report_ok args) (trace w0))).
  - intros l0 w0 e H. exact H.
  - intros l0 w0 ev Hev H. simpl. apply Forall_snoc; [exact H | ].
    destruct ev; simpl in Hev; try contradiction; exact Logic.I.
  - intros sched n_iter p l0 w0 _ _ _ H.
    eapply sat_mono; [apply (reported_train_batch x fuel args), H | | ]; auto.
  - exact Hw.
Qed.

Lemma train_reports_on_logging_steps_only_witness :
  Forall (report_ok reporting_args) (trace (world_of reporting_run)).
Proof.
  apply (train_reports_on_logging_steps_only (sample_externals 3 16 4 0) 1
           (host 1 0 1) reporting_args world0).
  - constructor.
  - vm_compute. reflexivity.
Defined.
